(** * powerpipe: the check command, leaf data, the query adapter and the
      dashboard's check types, embedded and verified.

    Sources embedded here:
    - [internal/cmd/check.go]: [getExitCode], [validateCheckArgs],
      [publishSnapshot], [exportExecutionTree], [executeTree],
      [getExecutionTree], [runCheckCmd];
    - package [dashboardtypes]: [LeafData], [NewLeafData];
    - package [db_client]: [ExecuteQuery];
    - [ui/dashboard/.../check/common/index.ts]: [CheckDisplayGroupType],
      [findDimension].

    Go strings are byte strings: [string] with [String.length] is Go's
    [len].  Go's [int] is a 64-bit two's complement integer, modelled as a
    [Z] with the wrap-around written out in [wrap_int]. *)

From Stdlib Require Import ZArith Lia List String Ascii Bool.
From stdpp Require Import base option list gmap strings.

Local Open Scope Z_scope.

(** ** Go's [int] *)

Definition int_min : Z := - 2 ^ 63.
Definition int_max : Z := 2 ^ 63 - 1.

(** Two's complement wrap-around of a 64-bit signed integer. *)
Definition wrap_int (z : Z) : Z := (z + 2 ^ 63) mod 2 ^ 64 - 2 ^ 63.

(** [x++] on an [int]. *)
Definition incr_int (x : Z) : Z := wrap_int (x + 1).

(** ** Exit codes ([constants.ExitCode...], declared in pipe-fittings) *)

Module constants.

(** Modelled from the spec: [constants.ExitCodeSuccessful] is declared
    outside the sources at hand; the spec (section 6, section 8) and the
    comment above [runCheckCmd] (exitCode=0: no runtime errors, no
    control alarms or errors) give 0. *)
Definition ExitCodeSuccessful : Z := 0.

(** Modelled from the spec: [constants.ExitCodeControlsAlarm]; the spec
    and the comments in [getExitCode] (1 or more controls in alarm,
    return exitCode=1) give 1. *)
Definition ExitCodeControlsAlarm : Z := 1.

(** Modelled from the spec: [constants.ExitCodeControlsError]; the spec
    and the comments in [getExitCode] (1 or more control errors, return
    exitCode=2) give 2. *)
Definition ExitCodeControlsError : Z := 2.

(** The names of the command line arguments that occur in error
    messages. *)
Inductive Arg : Type :=
| ArgSeparator
| ArgShare
| ArgSnapshot
| ArgWhere
| ArgTag.

End constants.

(** ** [internal/cmd/check.go] *)

Module cmd.
Import constants.

(** *** Errors *)

(** The error values that flow through the check command.  The three
    messages built by [validateCheckArgs] with [fmt.Errorf] are kept
    apart; the argument names are the format arguments. *)
Inductive error : Type :=
| ErrSearchPath
    (* "only one of --search-path or --search-path-prefix may be set" *)
| ErrAtMostOneCharacter (a : Arg)
    (* "'--%s' can be 1 character long at most" *)
| ErrOnlyOneOf (a b : Arg)
    (* "only 1 of '--%s' and '--%s' may be set" *)
| ErrContext
    (* ctx.Err() of a canceled context *)
| ErrWrapWithMessage (e : error) (msg : string)
    (* sperr.WrapWithMessage(err, msg) *)
| ErrNilPointer
    (* the runtime error of a nil pointer dereference *)
| ErrOther (msg : string).
    (* an error value handed back by a collaborator *)

(** *** The configuration read through viper *)

Record Viper : Type := {
  IsSet_SearchPath : bool;
  IsSet_SearchPathPrefix : bool;
  GetString_Separator : string;
  GetBool_Share : bool;
  GetBool_Snapshot : bool;
  IsSet_Where : bool;
  IsSet_Tag : bool;
  GetStringSlice_Export : list string;
  GetBool_Progress : bool
}.

(** *** The execution tree, as far as the command reads it:
    [tree.Root.Summary.Status.Alarm] and [.Error] *)

Record StatusSummary : Type := {
  Alarm : Z; Ok : Z; Info : Z; Skip : Z; Error : Z
}.
Record GroupSummary : Type := { Status : StatusSummary }.
Record ResultGroup : Type := { Summary : GroupSummary }.
Record ExecutionTree : Type := { Root : ResultGroup }.

Record namedExecutionTree : Type := {
  tree : ExecutionTree;
  name : string
}.

Definition newNamedExecutionTree (name : string) (tree : ExecutionTree)
  : namedExecutionTree :=
  {| tree := tree; name := name |}.

(** get the exit code for successful check run *)
Definition getExitCode (alarms : Z) (errors : Z) : Z :=
  (* 1 or more control errors, return exitCode=2 *)
  if errors >? 0 then ExitCodeControlsError
  (* 1 or more controls in alarm, return exitCode=1 *)
  else if alarms >? 0 then ExitCodeControlsAlarm
  (* no controls in alarm/error *)
  else ExitCodeSuccessful.

(** *** What the command does to the outside, in order *)

Inductive event : Type :=
| ShowError (err : error)
| DisplayConfig
| NewInitData
| Cleanup
| DisplayMessages
| NewExecutionTree
| TreeExecute
| FormatterFormat
| CopyToStdout
| PublishSnapshot (shouldShare : bool)
| DoExport (exportArgs : list string)
| PrintExportMsg (exportMsg : list string).

(** The places where the command asks whether its context is canceled. *)
Inductive checkpoint : Type :=
| InGetExecutionTree      (* IsContextCanceled, first line of getExecutionTree *)
| AfterNewExecutionTree   (* ctx.Err() in the return of getExecutionTree *)
| InPublishSnapshot       (* IsContextCanceled in publishSnapshot *)
| InExportExecutionTree.  (* IsContextCanceled in exportExecutionTree *)

(** *** A monad for the command: state, and panics *)

(** [exitCode] is the package-level variable; [totalAlarms] and
    [totalErrors] are the locals of [runCheckCmd] that its deferred
    closure reads; [trace] collects the events. *)
Record state : Type := {
  exitCode : Z;
  totalAlarms : Z;
  totalErrors : Z;
  trace : list event
}.

Inductive result (A : Type) : Type :=
| Returns (a : A)
| Panics (r : error).
Arguments Returns {A} a.
Arguments Panics {A} r.

Definition M (A : Type) : Type := state -> result A * state.

Definition ret {A : Type} (a : A) : M A := fun s => (Returns a, s).

Definition bind {A B : Type} (m : M A) (k : A -> M B) : M B :=
  fun s =>
    match m s with
    | (Returns a, s') => k a s'
    | (Panics r, s') => (Panics r, s')
    end.

Definition panic {A : Type} (r : error) : M A := fun s => (Panics r, s).

(** The outcome of a call to a collaborator. *)
Definition call {A : Type} (e : event) (outcome : result A) : M A :=
  fun s =>
    (outcome,
     {| exitCode := exitCode s; totalAlarms := totalAlarms s;
        totalErrors := totalErrors s; trace := trace s ++ [e] |}).

Definition emit (e : event) : M unit := call e (Returns tt).

Definition set_exitCode (c : Z) : M unit :=
  fun s =>
    (Returns tt,
     {| exitCode := c; totalAlarms := totalAlarms s;
        totalErrors := totalErrors s; trace := trace s |}).

Definition set_totals (alarms errors : Z) : M unit :=
  fun s =>
    (Returns tt,
     {| exitCode := exitCode s; totalAlarms := alarms;
        totalErrors := errors; trace := trace s |}).

(** [totalErrors++] *)
Definition incr_totalErrors : M unit :=
  fun s =>
    (Returns tt,
     {| exitCode := exitCode s; totalAlarms := totalAlarms s;
        totalErrors := incr_int (totalErrors s); trace := trace s |}).

Definition get : M state := fun s => (Returns s, s).

(** [defer d] before [body]: [d] runs when [body] returns and when it
    panics; the panic goes on after it. *)
Definition defer {A : Type} (d : M unit) (body : M A) : M A :=
  fun s =>
    match body s with
    | (r, s') =>
        match d s' with
        | (Returns _, s'') => (r, s'')
        | (Panics p, s'') => (Panics p, s'')
        end
    end.

(** A deferred function that starts with [r := recover()]: it gets the
    value of the panic, if any, and the function returns normally. *)
Definition defer_recover (d : option error -> M unit) (body : M unit)
  : M unit :=
  fun s =>
    match body s with
    | (Returns _, s') => d None s'
    | (Panics r, s') => d (Some r) s'
    end.

#[global] Instance M_ret : MRet M := @ret.
#[global] Instance M_bind : MBind M := fun A B k m => bind m k.

(** [error_helpers.FailOnError] (pipe-fittings): panics with the error
    when there is one. *)
Definition FailOnError (err : option error) : M unit :=
  match err with
  | Some e => panic e
  | None => mret tt
  end.

(** Modelled from the spec: the package-level variable [exitCode] is
    declared in another file of the package; a Go [int] variable starts
    at zero, the success code of the spec's exit-code table.  The locals
    and the trace start empty. *)
Definition initial_state : state :=
  {| exitCode := 0; totalAlarms := 0; totalErrors := 0; trace := [] |}.

(** *** The collaborators of one run *)

(** Modelled from the spec: the exit codes of runtime and setup failures
    ([constants.ExitCodeInsufficientOrWrongInputs],
    [constants.ExitCodeInitializationFailed],
    [constants.ExitCodeUnknownErrorPanic]) are declared in pipe-fittings;
    the spec and the comment above [runCheckCmd] (exitCode=3+ runtime
    errors) bound them from below and say no more, so they are
    parameters. *)
Record RuntimeExitCodes : Type := {
  ExitCodeInsufficientOrWrongInputs : Z;
  ExitCodeInitializationFailed : Z;
  ExitCodeUnknownErrorPanic : Z
}.

(** What the outside answers during one run of the command: the
    configuration, the environment, the state of the context at each
    point where it is asked, and the outcome of every call that leaves
    the file. *)
Record World : Type := {
  viper : Viper;
  (* os.LookupEnv(localconstants.EnvConfigDump) *)
  envConfigDump : bool;
  ctxCanceled : checkpoint -> bool;
  (* controlinit.NewInitData: initData.Result.Error *)
  initData_Result_Error : result (option error);
  (* controlexecute.NewExecutionTree *)
  NewExecutionTree_outcome : result (ExecutionTree * option error);
  (* the export name, from the export manager, the target and the mod *)
  exportName : string;
  (* tree.Execute: the tree as the run left it, and the error *)
  Execute_outcome : result (ExecutionTree * option error);
  (* formatter.Format *)
  Format_outcome : result (option error);
  (* io.Copy(os.Stdout, reader) *)
  Copy_outcome : result (option error);
  (* controldisplay.PublishSnapshot *)
  PublishSnapshot_outcome : result (option error);
  (* initData.ExportManager.DoExport *)
  DoExport_outcome : result (list string * option error)
}.

Section Command.

(** [localcmdconfig.ValidateSnapshotArgs], from another package. *)
Variable ValidateSnapshotArgs : Viper -> option error.
Variable codes : RuntimeExitCodes.

Definition validateCheckArgs (v : Viper) : option error :=
  match ValidateSnapshotArgs v with
  | Some err => Some err
  | None =>
      if IsSet_SearchPath v && IsSet_SearchPathPrefix v then
        Some ErrSearchPath
      (* only 1 character is allowed for '--separator' *)
      else if (1 <? String.length (GetString_Separator v))%nat then
        Some (ErrAtMostOneCharacter ArgSeparator)
      (* only 1 of 'share' and 'snapshot' may be set *)
      else if GetBool_Share v && GetBool_Snapshot v then
        Some (ErrOnlyOneOf ArgShare ArgSnapshot)
      (* if both '--where' and '--tag' have been used, then it's an error *)
      else if IsSet_Where v && IsSet_Tag v then
        Some (ErrOnlyOneOf ArgWhere ArgTag)
      else None
  end.

Definition displayControlResults (w : World) : M (option error) :=
  err ← call FormatterFormat (Format_outcome w);
  match err with
  | Some e => mret (Some e)
  | None => call CopyToStdout (Copy_outcome w)
  end.

(** executeTree executes and displays the (table) results of an
    execution.  [tree.Execute] changes the tree [t] in place: the world
    answers with the tree as the call left it, which is handed back with
    the error. *)
Definition executeTree (w : World) (t : ExecutionTree)
  : M (ExecutionTree * option error) :=
  '(t', err) ← call TreeExecute (Execute_outcome w);
  match err with
  | Some e => mret (t', Some e)
  | None =>
      err ← displayControlResults w;
      match err with
      | Some e => mret (t', Some e)
      | None => mret (t', None)
      end
  end.

Definition publishSnapshot (w : World) (executionTree : ExecutionTree)
           (shouldShare shouldUpload : bool) : M (option error) :=
  if ctxCanceled w InPublishSnapshot then mret (Some ErrContext)
  (* if the share args are set, create a snapshot and share it *)
  else if shouldShare || shouldUpload then
    call (PublishSnapshot shouldShare) (PublishSnapshot_outcome w)
  else mret None.

(** exportExecutionTree relies on the fact that the given tree is
    already executed *)
Definition exportExecutionTree (w : World) (namedTree : namedExecutionTree)
           (exportArgs : list string) : M (option error) :=
  if ctxCanceled w InExportExecutionTree then mret (Some ErrContext)
  else
    '(exportMsg, err) ← call (DoExport exportArgs) (DoExport_outcome w);
    match err with
    | Some e => mret (Some e)
    | None =>
        (* print the location where the file is exported if progress=true *)
        (if (0 <? length exportMsg)%nat && GetBool_Progress (viper w)
         then emit (PrintExportMsg exportMsg)
         else mret tt) ;;
        mret None
    end.

Definition getExecutionTree (w : World)
  : M (option namedExecutionTree * option error) :=
  if ctxCanceled w InGetExecutionTree then mret (None, Some ErrContext)
  else
    '(executionTree, err) ←
      call NewExecutionTree (NewExecutionTree_outcome w);
    match err with
    | Some e =>
        mret (None,
              Some (ErrWrapWithMessage e
                      "could not create merged execution tree"))
    | None =>
        mret (Some (newNamedExecutionTree (exportName w) executionTree),
              if ctxCanceled w AfterNewExecutionTree
              then Some ErrContext else None)
    end.

(** The statements of [runCheckCmd] after its last [defer]: from the
    call of [executeTree] to the end. *)
Definition runCheckCmd_execute (w : World) (namedTree : namedExecutionTree)
  : M unit :=
  '(t, err) ← executeTree w (tree namedTree);
  match err with
  | Some e =>
      incr_totalErrors ;;
      emit (ShowError e)
  | None =>
      (* append the total number of alarms and errors for multiple runs *)
      set_totals (Alarm (Status (Summary (Root t))))
                 (Error (Status (Summary (Root t)))) ;;
      err ← publishSnapshot w t (GetBool_Share (viper w))
                            (GetBool_Snapshot (viper w));
      match err with
      | Some e =>
          emit (ShowError e) ;;
          incr_totalErrors
      | None =>
          (* printTiming has an empty body *)
          err ← exportExecutionTree w
                  (newNamedExecutionTree (name namedTree) t)
                  (GetStringSlice_Export (viper w));
          match err with
          | Some e =>
              emit (ShowError e) ;;
              incr_totalErrors
          | None => mret tt
          end
      end
  end.

(** The deferred closure that sets the exit code from the totals. *)
Definition set_exitCode_from_totals : M unit :=
  s ← get;
  set_exitCode (getExitCode (totalAlarms s) (totalErrors s)).

(** The statements of [runCheckCmd] below its first [defer]. *)
Definition runCheckCmd_body (w : World) : M unit :=
  (* validate the arguments *)
  match validateCheckArgs (viper w) with
  | Some err =>
      set_exitCode (ExitCodeInsufficientOrWrongInputs codes) ;;
      emit (ShowError err)
  | None =>
      (* if diagnostic mode is set, print out config and return *)
      if envConfigDump w then emit DisplayConfig
      else
        (* initialise *)
        initError ← call NewInitData (initData_Result_Error w);
        match initError with
        | Some e =>
            set_exitCode (ExitCodeInitializationFailed codes) ;;
            emit (ShowError e)
        | None =>
            defer (emit Cleanup)
              ((* if there is a usage warning we display it *)
               emit DisplayMessages ;;
               (* get the execution trees *)
               '(namedTree, err) ← getExecutionTree w;
               FailOnError err ;;
               match namedTree with
               | None => panic ErrNilPointer
               | Some namedTree =>
                   set_totals 0 0 ;;
                   defer set_exitCode_from_totals
                         (runCheckCmd_execute w namedTree)
               end)
        end
  end.

(** The command: its first [defer] recovers from a panic of the body.
    Logging ([utils.LogTime]) and the status spinner ([statushooks]) are
    left out. *)
Definition runCheckCmd (w : World) : M unit :=
  defer_recover
    (fun r =>
       match r with
       | Some e =>
           emit (ShowError e) ;;
           set_exitCode (ExitCodeUnknownErrorPanic codes)
       | None => mret tt
       end)
    (runCheckCmd_body w).

(** The state the process ends in: its exit code, and what it did. *)
Definition run (w : World) : state := snd (runCheckCmd w initial_state).

(** Whether the body of the command panics. *)
Definition panics (w : World) : Prop :=
  exists r, fst (runCheckCmd_body w initial_state) = Panics r.

(** The end of a run that stops at the validation of its arguments: the
    error is shown and nothing else has happened. *)
Definition rejected (err : error) : state :=
  {| exitCode := ExitCodeInsufficientOrWrongInputs codes;
     totalAlarms := 0; totalErrors := 0;
     trace := [ShowError err] |}.

End Command.

(** The bound the spec puts on the exit codes of runtime failures. *)
Definition runtime_codes_from_3 (codes : RuntimeExitCodes) : Prop :=
  3 <= ExitCodeInsufficientOrWrongInputs codes /\
  3 <= ExitCodeInitializationFailed codes /\
  3 <= ExitCodeUnknownErrorPanic codes.

(** The counts of a root summary are counts: not negative, and the error
    count is below the largest [int]. *)
Definition counts_in_range (t : ExecutionTree) : Prop :=
  0 <= Alarm (Status (Summary (Root t))) /\
  0 <= Error (Status (Summary (Root t))) < int_max.

(** Some error was shown during the run. *)
Definition failure_shown (s : state) : Prop :=
  exists e, In (ShowError e) (trace s).

Definition root_alarms (t : ExecutionTree) : Z :=
  Alarm (Status (Summary (Root t))).
Definition root_errors (t : ExecutionTree) : Z :=
  Error (Status (Summary (Root t))).

(** *** Characters and bytes *)

(** A byte of the form 10xxxxxx: in UTF-8 text it goes on with the
    character that an earlier byte has started. *)
Definition is_continuation_byte (c : ascii) : bool :=
  match c with
  | Ascii _ _ _ _ _ _ b6 b7 => b7 && negb b6
  end.

(** The length of a separator in the words of the comment above the check
    in [validateCheckArgs] (only 1 character is allowed) and of its error
    message (1 character long at most): the number of characters of the
    UTF-8 text that the string holds, one for each byte that starts a
    character.  It follows those words and is compared with the [len] of
    the code, which is [String.length]. *)
Fixpoint spec_characters (s : string) : nat :=
  match s with
  | EmptyString => 0%nat
  | String c s' =>
      ((if is_continuation_byte c then 0 else 1) + spec_characters s')%nat
  end.

Section Endings.
Variable ValidateSnapshotArgs : Viper -> option error.
Variable codes : RuntimeExitCodes.

(** The ways a run of the command ends, by the return statement or the
    panic that ends it: [s] is the final state of a run in the world [w]. *)
Inductive run_ends (w : World) (s : state) : Prop :=
| ends_rejected (err : error) :
    (* the return after validateCheckArgs *)
    validateCheckArgs ValidateSnapshotArgs (viper w) = Some err ->
    s = rejected codes err ->
    run_ends w s
| ends_config_dump :
    (* the return after DisplayConfig *)
    validateCheckArgs ValidateSnapshotArgs (viper w) = None ->
    envConfigDump w = true ->
    s = {| exitCode := 0; totalAlarms := 0; totalErrors := 0;
           trace := [DisplayConfig] |} ->
    run_ends w s
| ends_init_failed (e : error) :
    (* the return after NewInitData *)
    validateCheckArgs ValidateSnapshotArgs (viper w) = None ->
    initData_Result_Error w = Returns (Some e) ->
    ~ In TreeExecute (trace s) ->
    failure_shown s ->
    exitCode s = ExitCodeInitializationFailed codes ->
    run_ends w s
| ends_panic :
    (* a panic, of FailOnError or of a collaborator *)
    validateCheckArgs ValidateSnapshotArgs (viper w) = None ->
    panics ValidateSnapshotArgs codes w ->
    failure_shown s ->
    exitCode s = ExitCodeUnknownErrorPanic codes ->
    run_ends w s
| ends_step_failed (alarms errors : Z) :
    (* one of the three returns after an error of executeTree,
       publishSnapshot or exportExecutionTree: totalErrors++ *)
    validateCheckArgs ValidateSnapshotArgs (viper w) = None ->
    In TreeExecute (trace s) ->
    failure_shown s ->
    exitCode s = getExitCode alarms (incr_int errors) ->
    (errors = 0 \/
     exists t, Execute_outcome w = Returns (t, None) /\
               errors = root_errors t) ->
    run_ends w s
| ends_completed (t : ExecutionTree) :
    (* the end of the function *)
    validateCheckArgs ValidateSnapshotArgs (viper w) = None ->
    In TreeExecute (trace s) ->
    ~ failure_shown s ->
    Execute_outcome w = Returns (t, None) ->
    ctxCanceled w InPublishSnapshot = false ->
    ctxCanceled w InExportExecutionTree = false ->
    exitCode s = getExitCode (root_alarms t) (root_errors t) ->
    run_ends w s.
End Endings.

End cmd.

(** ** Package [queryresult]: the synchronous query result *)

Module localqueryresult.

Section SyncQueryResult.
(** [queryresult.ColumnDef] is declared in pipe-fittings and the cells
    of a row are [interface{}] values: both are parameters. *)
Context {ColumnDef V : Type}.

(** A row of the result, behind the type assertion of [row] to a
    pointer to [RowResult]. *)
Record RowResult : Type := { Data : list V }.

Record SyncQueryResult : Type := {
  Rows : list RowResult;
  Cols : list ColumnDef
}.
End SyncQueryResult.

Arguments RowResult : clear implicits.
Arguments SyncQueryResult : clear implicits.

End localqueryresult.

(** ** Package [dashboardtypes]: [LeafData] *)

Module dashboardtypes.

Section LeafData.
Context {ColumnDef V : Type}.
(** The field [Name] of a column definition. *)
Variable Name : ColumnDef -> string.

Record LeafData : Type := {
  Columns : list ColumnDef;
  Rows : list (gmap string V)
}.

(** The inner loop, [for i, data := range row.Data], from index [i]
    on.  [leafData.Columns[i]] with [i] out of range is a run-time
    panic: [None]. *)
Fixpoint fill_rowData (Columns : list ColumnDef) (i : nat)
         (data : list V) (rowData : gmap string V)
  : option (gmap string V) :=
  match data with
  | [] => Some rowData
  | d :: rest =>
      match Columns !! i with
      | None => None
      | Some column =>
          fill_rowData Columns (S i) rest (<[Name column := d]> rowData)
      end
  end.

(** The outer loop, [for rowIdx, row := range result.Rows], from index
    [rowIdx] on; [rows] is [leafData.Rows]. *)
Fixpoint fill_Rows (Columns : list ColumnDef) (rowIdx : nat)
         (source : list (localqueryresult.RowResult V))
         (rows : list (gmap string V))
  : option (list (gmap string V)) :=
  match source with
  | [] => Some rows
  | row :: rest =>
      match fill_rowData Columns 0 (localqueryresult.Data row) ∅ with
      | None => None
      | Some rowData =>
          fill_Rows Columns (S rowIdx) rest (<[rowIdx := rowData]> rows)
      end
  end.

(** [None] is a panic.  [make([]map[string]interface{}, n)] is a slice
    of [n] nil maps, which read as empty maps.  The pointers the function
    follows ([result], the rows, the column definitions) are taken to be
    non-nil, and every row to be a [RowResult]. *)
Definition NewLeafData
           (result : localqueryresult.SyncQueryResult ColumnDef V)
  : option LeafData :=
  let Rows0 : list (gmap string V) :=
    replicate (length (localqueryresult.Rows result)) ∅ in
  let Columns0 := localqueryresult.Cols result in
  match fill_Rows Columns0 0 (localqueryresult.Rows result) Rows0 with
  | None => None
  | Some rows => Some {| Columns := Columns0; Rows := rows |}
  end.
End LeafData.

Arguments LeafData : clear implicits.

End dashboardtypes.

(** ** Package [db_client]: [ExecuteQuery] *)

Module db_client.

Section ExecuteQuery.
(** The context, the query arguments ([any]), the result of the
    client, the streamer and the error values are opaque here. *)
Context {context any Result ResultStreamer error : Type}.

(** The interface [DbClient], as far as [ExecuteQuery] calls it. *)
Class DbClient (C : Type) : Type := {
  Execute : C -> context -> string -> list any -> Result * option error
}.

(** What the goroutine started by [ExecuteQuery] does, in order.  A
    pointer is an [option]: [None] is nil. *)
Inductive action : Type :=
| StreamResult (s : option ResultStreamer) (r : Result)
| Close (s : option ResultStreamer).

Definition goroutine : Type := list action.

(** [queryresult.NewResultStreamer()], from another package: the
    pointer it returns. *)
Variable NewResultStreamer : option ResultStreamer.

(** ExecuteQuery executes a single query.  The result is the pair the
    Go function returns, and the goroutines it has started.  Logging
    ([utils.LogTime]) is left out. *)
Definition ExecuteQuery {C : Type} `{DbClient C}
           (ctx : context) (client : C) (queryString : string)
           (args : list any)
  : (option ResultStreamer * option error) * list goroutine :=
  let resultsStreamer := NewResultStreamer in
  let '(result, err) := Execute client ctx queryString args in
  match err with
  | Some e => ((None, Some e), [])
  | None =>
      ((resultsStreamer, None),
       [[StreamResult resultsStreamer result; Close resultsStreamer]])
  end.
End ExecuteQuery.

End db_client.

(** ** [ui/dashboard/src/components/dashboards/check/common/index.ts] *)

Module check_common.

(** A TypeScript type built from string literals, [string] and unions;
    its values are strings. *)
Inductive ts_type : Type :=
| TLiteral (s : string)
| TString
| TUnion (a b : ts_type).

(** Whether the string [v] is a value of the type. *)
Fixpoint has_type (v : string) (t : ts_type) : bool :=
  match t with
  | TLiteral s => String.eqb v s
  | TString => true
  | TUnion a b => has_type v a || has_type v b
  end.

(** The string literals a type names, in order. *)
Fixpoint literals (t : ts_type) : list string :=
  match t with
  | TLiteral s => [s]
  | TString => []
  | TUnion a b => literals a ++ literals b
  end.

Definition CheckDisplayGroupType : ts_type :=
  TUnion (TLiteral "benchmark")
 (TUnion (TLiteral "control")
 (TUnion (TLiteral "control_tag")
 (TUnion (TLiteral "result")
 (TUnion (TLiteral "dimension")
 (TUnion (TLiteral "reason")
 (TUnion (TLiteral "resource")
 (TUnion (TLiteral "severity")
 (TUnion (TLiteral "status")
         TString)))))))).

(** The seven grouping kinds the specification lists for the Regrouping
    Engine (benchmark, control, tag, dimension, severity, status,
    result), under the names the type gives them. *)
Definition spec_grouping_kinds : list string :=
  ["benchmark"; "control"; "control_tag"; "dimension"; "severity";
   "status"; "result"].

Record CheckResultDimension : Type := {
  key : string;
  value : string
}.

(** [dimensions?: CheckResultDimension[]] and [key?: string]: [None] is
    [undefined].  [!dimensions] holds of [undefined] only (an array is
    truthy, also when empty); [!key] holds of [undefined] and of the
    empty string. *)
Definition findDimension (dimensions : option (list CheckResultDimension))
           (k : option string) : option CheckResultDimension :=
  match dimensions, k with
  | None, _ => None
  | Some _, None => None
  | Some ds, Some k =>
      if String.eqb k "" then None
      else List.find (fun d => String.eqb (key d) k) ds
  end.

End check_common.

(** ** Sample runs *)

Module samples.
Import constants cmd.

(** A snapshot-argument check that finds nothing to object to. *)
Definition snapshot_args_ok : Viper -> option error := fun _ => None.

(** Exit codes of runtime failures, all of them above 2. *)
Definition sample_codes : RuntimeExitCodes :=
  {| ExitCodeInsufficientOrWrongInputs := 254;
     ExitCodeInitializationFailed := 250;
     ExitCodeUnknownErrorPanic := 255 |}.

(** A configuration with the given separator and switches, an empty export
    list and progress on. *)
Definition config (separator : string) (share snapshot where_ tag : bool)
  : Viper :=
  {| IsSet_SearchPath := false;
     IsSet_SearchPathPrefix := false;
     GetString_Separator := separator;
     GetBool_Share := share;
     GetBool_Snapshot := snapshot;
     IsSet_Where := where_;
     IsSet_Tag := tag;
     GetStringSlice_Export := [];
     GetBool_Progress := true |}.

(** The separator [--separator é]: one character, which UTF-8 encodes in
    the two bytes 0xC3 0xA9. *)
Definition e_acute : string := String "195" (String "169" EmptyString).

(** A tree whose root summary counts [alarm] alarms and [error] errors. *)
Definition tree_with (alarm error : Z) : ExecutionTree :=
  {| Root :=
       {| Summary :=
            {| Status :=
                 {| Alarm := alarm; Ok := 0; Info := 0; Skip := 0;
                    Error := error |} |} |} |}.

(** A run in which every collaborator succeeds, but for the given outcomes
    of [tree.Execute], of the snapshot publication and of the export; the
    context is never canceled. *)
Definition world (v : Viper)
           (executed : result (ExecutionTree * option error))
           (published : result (option error))
           (exported : result (list string * option error)) : World :=
  {| viper := v;
     envConfigDump := false;
     ctxCanceled := fun _ => false;
     initData_Result_Error := Returns None;
     NewExecutionTree_outcome := Returns (tree_with 0 0, None);
     exportName := "check.mod";
     Execute_outcome := executed;
     Format_outcome := Returns None;
     Copy_outcome := Returns None;
     PublishSnapshot_outcome := published;
     DoExport_outcome := exported |}.

(** Query results whose columns are given by their names alone and whose
    cells are integers. *)
Definition column_name : string -> string := fun c => c.

(** [select 1 as a, 2 as a]: one row, two columns of the same name. *)
Definition result_same_names : localqueryresult.SyncQueryResult string Z :=
  {| localqueryresult.Rows := [ {| localqueryresult.Data := [1; 2] |} ];
     localqueryresult.Cols := ["a"; "a"] |}.

(** A row with more cells than there are columns. *)
Definition result_long_row : localqueryresult.SyncQueryResult string Z :=
  {| localqueryresult.Rows := [ {| localqueryresult.Data := [1; 2] |} ];
     localqueryresult.Cols := ["a"] |}.

(** Two rows over the columns [id] and [reason]. *)
Definition result_two_rows : localqueryresult.SyncQueryResult string Z :=
  {| localqueryresult.Rows := [ {| localqueryresult.Data := [1; 10] |};
                                {| localqueryresult.Data := [2; 20] |} ];
     localqueryresult.Cols := ["id"; "reason"] |}.

(** A client that is a switch: when on, every query succeeds with the
    result 7; when off, every query fails. *)
#[global] Instance switch_client
  : @db_client.DbClient unit unit nat string bool :=
  {| db_client.Execute := fun (on : bool) _ _ _ =>
       if on then (7%nat, None) else (0%nat, Some "connection refused") |}.

End samples.

(** ** Tactics for the runs of the command *)

Import constants cmd.

(** Membership in the trace of a run that has been computed. *)
Ltac in_list := cbn; repeat (first [left; reflexivity | right]).
Ltac not_in_list := cbn; intuition discriminate.
Ltac shown := unfold failure_shown; eexists; in_list.
Ltac not_shown :=
  let e := fresh "e" in
  let H := fresh "H" in
  unfold failure_shown; intros [e H]; cbn in H; intuition discriminate.

Ltac unfold_run :=
  unfold run, runCheckCmd, runCheckCmd_body, defer_recover,
    runCheckCmd_execute, getExecutionTree, executeTree,
    displayControlResults, publishSnapshot, exportExecutionTree,
    set_exitCode_from_totals, FailOnError, mbind, M_bind, mret, M_ret,
    bind, ret, defer, call, emit, panic, set_exitCode, set_totals,
    incr_totalErrors, get, initial_state.

(** The body of the command panics, along the path that the equations in
    the context describe. *)
Ltac does_panic Hv :=
  unfold panics; unfold_run; cbn [viper]; rewrite Hv; cbn;
  repeat match goal with H : _ = _ |- _ => rewrite H; cbn end;
  eexists; reflexivity.

(** Closes the goal of a path of the command that has come to its end. *)
Ltac finish Hv :=
  lazymatch goal with
  | |- run_ends _ _ _ ?s =>
      lazymatch s with
      | context [match _ with _ => _ end] => fail
      | _ => idtac
      end
  end;
  first
    [ solve [ eapply ends_init_failed;
              [exact Hv | reflexivity | not_in_list | shown | reflexivity] ]
    | solve [ eapply ends_completed;
              [exact Hv | in_list | not_shown | reflexivity
              | cbn; assumption | cbn; assumption | reflexivity] ]
    | solve [ eapply ends_step_failed;
              [exact Hv | in_list | shown | reflexivity
              | first [left; reflexivity
                      | right; eexists; split; reflexivity] ] ]
    | solve [ eapply ends_panic;
              [exact Hv | does_panic Hv | shown | reflexivity] ] ].

(** ** The stages of a run *)

Module stages.
Import constants cmd.

Section Stages.
Variable ValidateSnapshotArgs : Viper -> option error.

(** The run gets past the validation and the diagnostic mode, and its
    initialisation succeeds: from here on [Cleanup] is deferred. *)
Definition initialised (w : World) : Prop :=
  validateCheckArgs ValidateSnapshotArgs (viper w) = None /\
  envConfigDump w = false /\
  initData_Result_Error w = Returns None.

(** [getExecutionTree] returns the tree [t0] and no error. *)
Definition tree_built (w : World) (t0 : ExecutionTree) : Prop :=
  initialised w /\
  ctxCanceled w InGetExecutionTree = false /\
  NewExecutionTree_outcome w = Returns (t0, None) /\
  ctxCanceled w AfterNewExecutionTree = false.
End Stages.

(** [executeTree] returns the error [e]: from [tree.Execute], from the
    formatter or from the copy to the standard output. *)
Definition executeTree_fails (w : World) (e : error) : Prop :=
  (exists t, Execute_outcome w = Returns (t, Some e)) \/
  (exists t, Execute_outcome w = Returns (t, None) /\
             (Format_outcome w = Returns (Some e) \/
              (Format_outcome w = Returns None /\
               Copy_outcome w = Returns (Some e)))).

(** [executeTree] returns without error and leaves the tree [t]. *)
Definition executeTree_succeeds (w : World) (t : ExecutionTree) : Prop :=
  Execute_outcome w = Returns (t, None) /\
  Format_outcome w = Returns None /\
  Copy_outcome w = Returns None.

(** [publishSnapshot] returns the error [e]: the context is canceled, or
    the publication is asked for and fails. *)
Definition publishSnapshot_fails (w : World) (e : error) : Prop :=
  (ctxCanceled w InPublishSnapshot = true /\ e = ErrContext) \/
  (ctxCanceled w InPublishSnapshot = false /\
   GetBool_Share (viper w) || GetBool_Snapshot (viper w) = true /\
   PublishSnapshot_outcome w = Returns (Some e)).

(** [publishSnapshot] returns without error: the context is not canceled,
    and the publication is not asked for or succeeds. *)
Definition publishSnapshot_succeeds (w : World) : Prop :=
  ctxCanceled w InPublishSnapshot = false /\
  (GetBool_Share (viper w) || GetBool_Snapshot (viper w) = true ->
   PublishSnapshot_outcome w = Returns None).

(** [exportExecutionTree] returns the error [e]: the context is canceled,
    or the export fails. *)
Definition exportExecutionTree_fails (w : World) (e : error) : Prop :=
  (ctxCanceled w InExportExecutionTree = true /\ e = ErrContext) \/
  (ctxCanceled w InExportExecutionTree = false /\
   exists msgs, DoExport_outcome w = Returns (msgs, Some e)).

(** [exportExecutionTree] returns without error. *)
Definition exportExecutionTree_succeeds (w : World) : Prop :=
  ctxCanceled w InExportExecutionTree = false /\
  exists msgs, DoExport_outcome w = Returns (msgs, None).

Definition is_Cleanup (e : event) : bool :=
  match e with
  | Cleanup => true
  | _ => false
  end.

End stages.

(** ** A walk along the paths of the command *)

Import stages.

(** The goal is computed: no [match] is left in it. *)
Ltac stuck_free :=
  lazymatch goal with
  | |- context [match _ with _ => _ end] => fail
  | |- _ => idtac
  end.

(** The end of a path: the path contradicts the context, or the goal is
    computed and [fin] proves it. *)
Ltac leaf fin :=
  try congruence; try (simplify_eq; cbn; stuck_free; solve [fin]).

(** Walks a goal about [run _ _ w] along the returns of the command. *)
Ltac walk_run fin :=
  lazymatch goal with
  | |- context [run ?VSA ?codes ?w] =>
      let Hv := fresh "Hv" in
      destruct (validateCheckArgs VSA (viper w)) as [?err|] eqn:Hv;
      [ unfold_run; rewrite Hv; cbn; leaf fin
      | destruct w as [v dump canc init newt nm exe fmt cp pub expo];
        cbn [viper envConfigDump ctxCanceled initData_Result_Error
             NewExecutionTree_outcome exportName Execute_outcome
             Format_outcome Copy_outcome PublishSnapshot_outcome
             DoExport_outcome] in *;
        unfold_run; cbn [viper]; rewrite Hv; cbn;
        destruct dump; cbn; leaf fin;
        destruct init as [[?e|]|?r]; cbn; leaf fin;
        destruct (canc InGetExecutionTree) eqn:?Hc; cbn; leaf fin;
        destruct newt as [[?t [?e|]]|?r]; cbn; leaf fin;
        destruct (canc AfterNewExecutionTree) eqn:?Hc; cbn; leaf fin;
        destruct exe as [[?t [?e|]]|?r]; cbn; leaf fin;
        destruct fmt as [[?e|]|?r]; cbn; leaf fin;
        destruct cp as [[?e|]|?r]; cbn; leaf fin;
        destruct (canc InPublishSnapshot) eqn:?Hc; cbn; leaf fin;
        destruct (GetBool_Share v) eqn:?Hshare;
        destruct (GetBool_Snapshot v) eqn:?Hsnapshot; cbn;
        try (destruct pub as [[?e|]|?r]; cbn); leaf fin;
        destruct (canc InExportExecutionTree) eqn:?Hc; cbn; leaf fin;
        destruct expo as [[exportMsg [?e|]]|?r]; cbn; leaf fin;
        destruct exportMsg as [|?m ?ms]; cbn; leaf fin;
        destruct (GetBool_Progress v) eqn:?Hprogress; cbn; leaf fin ]
  end.

(** Proves a conjunction of computed facts about a trace and a state. *)
Ltac settle :=
  repeat split;
  first [ reflexivity
        | assumption
        | solve [in_list]
        | solve [intros; not_in_list]
        | solve [not_shown]
        | solve [intros; congruence] ].

(** The hypothesis that an event is in a computed trace, by cases. *)
Ltac event_cases H :=
  cbn in H;
  repeat match type of H with
         | _ \/ _ => destruct H as [H | H]; [try discriminate |]
         | False => destruct H
         end.

(** * Properties *)

Import samples.

(** ** The exit-code resolver *)

Example getExitCode_0_0 : getExitCode 0 0 = 0.
Proof. reflexivity. Qed.

Example getExitCode_3_0 : getExitCode 3 0 = 1.
Proof. reflexivity. Qed.

Example getExitCode_0_2 : getExitCode 0 2 = 2.
Proof. reflexivity. Qed.

Lemma getExitCode_errors (alarms errors : Z) :
  0 < errors -> getExitCode alarms errors = ExitCodeControlsError.
Proof.
  intros H. unfold getExitCode.
  destruct (Z.gtb_spec errors 0); [reflexivity | lia].
Qed.

Lemma getExitCode_alarms (alarms errors : Z) :
  errors <= 0 -> 0 < alarms ->
  getExitCode alarms errors = ExitCodeControlsAlarm.
Proof.
  intros He Ha. unfold getExitCode.
  destruct (Z.gtb_spec errors 0); [lia |].
  destruct (Z.gtb_spec alarms 0); [reflexivity | lia].
Qed.

Lemma getExitCode_none (alarms errors : Z) :
  errors <= 0 -> alarms <= 0 ->
  getExitCode alarms errors = ExitCodeSuccessful.
Proof.
  intros He Ha. unfold getExitCode.
  destruct (Z.gtb_spec errors 0); [lia |].
  destruct (Z.gtb_spec alarms 0); [lia | reflexivity].
Qed.

(** The resolver only ever answers 0, 1 or 2, and each answer tells the
    signs of the counts. *)
Lemma getExitCode_inv (alarms errors : Z) :
  (getExitCode alarms errors = 0 /\ errors <= 0 /\ alarms <= 0) \/
  (getExitCode alarms errors = 1 /\ errors <= 0 /\ 0 < alarms) \/
  (getExitCode alarms errors = 2 /\ 0 < errors).
Proof.
  unfold getExitCode.
  destruct (Z.gtb_spec errors 0) as [He | He].
  - right; right. split; [reflexivity | exact He].
  - destruct (Z.gtb_spec alarms 0) as [Ha | Ha].
    + right; left. split; [reflexivity | split; assumption].
    + left. split; [reflexivity | split; assumption].
Qed.

(** C1. The exit-code resolver is a function of the alarm and error counts
    alone: for all non-negative counts, errors > 0 gives the
    errors-present code 2; otherwise alarms > 0 gives the alarms-present
    code 1; otherwise the success code 0.  Errors dominate alarms: 3
    alarms and 2 errors give 2. *)
Theorem getExitCode_mapping (alarms errors : Z) :
  0 <= alarms -> 0 <= errors ->
  (0 < errors -> getExitCode alarms errors = 2) /\
  (errors = 0 -> 0 < alarms -> getExitCode alarms errors = 1) /\
  (errors = 0 -> alarms = 0 -> getExitCode alarms errors = 0) /\
  getExitCode 3 2 = 2.
Proof.
  intros Ha He. split; [| split; [| split]].
  - intros H. apply getExitCode_errors, H.
  - intros -> H. apply getExitCode_alarms; [lia | exact H].
  - intros -> ->. reflexivity.
  - reflexivity.
Qed.

Lemma getExitCode_mapping_witness :
  (0 <= 3 /\ 0 <= 2) /\
  (0 < 2 -> getExitCode 3 2 = 2) /\
  (2 = 0 -> 0 < 3 -> getExitCode 3 2 = 1) /\
  (2 = 0 -> 3 = 0 -> getExitCode 3 2 = 0) /\
  getExitCode 3 2 = 2.
Proof.
  split; [lia |].
  apply (getExitCode_mapping 3 2); lia.
Defined.

(** [totalErrors++] of a count below the largest [int] is positive. *)
Lemma incr_int_pos (x : Z) : 0 <= x < int_max -> 0 < incr_int x.
Proof.
  unfold incr_int, wrap_int, int_max. intros H.
  rewrite Z.mod_small by lia. lia.
Qed.

(** At the largest [int] it wraps around to the smallest. *)
Lemma incr_int_wraps : incr_int int_max = int_min.
Proof. reflexivity. Qed.

(** ** The validation of the arguments *)

Section ValidationProperties.
Variable ValidateSnapshotArgs : Viper -> option error.
Variable codes : RuntimeExitCodes.

Lemma run_rejected (w : World) (err : error) :
  validateCheckArgs ValidateSnapshotArgs (viper w) = Some err ->
  run ValidateSnapshotArgs codes w = rejected codes err.
Proof.
  intros Hv. unfold run, runCheckCmd, runCheckCmd_body, defer_recover.
  rewrite Hv. reflexivity.
Qed.

(** A rejected run initialises nothing, builds no tree and executes
    nothing. *)
Lemma rejected_does_nothing (err : error) :
  ~ In NewInitData (trace (rejected codes err)) /\
  ~ In NewExecutionTree (trace (rejected codes err)) /\
  ~ In TreeExecute (trace (rejected codes err)).
Proof. simpl. intuition discriminate. Qed.

(** The separator check as the code makes it, on bytes: when the length
    of the separator string (Go's [len], the number of its bytes) exceeds
    1, [validateCheckArgs] returns an error and the run ends there, before
    initialisation.  A separator of 0 bytes or 1 byte passes this check:
    the validation does not answer with the separator error, and it
    succeeds when the other checks pass. *)
Theorem separator_check (w : World) :
  let v := viper w in
  ((1 < String.length (GetString_Separator v))%nat ->
     exists err,
       validateCheckArgs ValidateSnapshotArgs v = Some err /\
       run ValidateSnapshotArgs codes w = rejected codes err /\
       ~ In NewInitData (trace (run ValidateSnapshotArgs codes w))) /\
  ((String.length (GetString_Separator v) <= 1)%nat ->
     ValidateSnapshotArgs v = None ->
     validateCheckArgs ValidateSnapshotArgs v
       <> Some (ErrAtMostOneCharacter ArgSeparator) /\
     (IsSet_SearchPath v && IsSet_SearchPathPrefix v = false ->
      GetBool_Share v && GetBool_Snapshot v = false ->
      IsSet_Where v && IsSet_Tag v = false ->
      validateCheckArgs ValidateSnapshotArgs v = None)).
Proof.
  intros v. split.
  - intros Hlen.
    assert (Hex : exists err,
               validateCheckArgs ValidateSnapshotArgs v = Some err).
    { unfold validateCheckArgs.
      destruct (ValidateSnapshotArgs v); [eauto |].
      destruct (_ && _); [eauto |].
      apply Nat.ltb_lt in Hlen. rewrite Hlen. eauto. }
    destruct Hex as [err Herr]. exists err.
    pose proof (run_rejected w err Herr) as Hrun.
    split; [exact Herr |]. split; [exact Hrun |].
    rewrite Hrun. apply rejected_does_nothing.
  - intros Hlen Hsnap. unfold validateCheckArgs. rewrite Hsnap.
    assert (Hltb : (1 <? String.length (GetString_Separator v))%nat = false)
      by (apply Nat.ltb_ge; exact Hlen).
    rewrite Hltb. split.
    + repeat match goal with
             | |- context [if ?b then _ else _] => destruct b
             end; discriminate.
    + intros -> -> ->. reflexivity.
Qed.

(** C9. [--share] and [--snapshot] exclude each other: when both are set,
    [validateCheckArgs] returns an error and the run ends there, before
    anything is initialised, built or executed.  When at most one is set
    this check passes: the validation does not answer with the
    share/snapshot error, and it succeeds when the other checks pass. *)
Theorem share_snapshot_check (w : World) :
  let v := viper w in
  (GetBool_Share v = true /\ GetBool_Snapshot v = true ->
     exists err,
       validateCheckArgs ValidateSnapshotArgs v = Some err /\
       run ValidateSnapshotArgs codes w = rejected codes err /\
       ~ In NewInitData (trace (run ValidateSnapshotArgs codes w)) /\
       ~ In NewExecutionTree (trace (run ValidateSnapshotArgs codes w)) /\
       ~ In TreeExecute (trace (run ValidateSnapshotArgs codes w))) /\
  (GetBool_Share v = false \/ GetBool_Snapshot v = false ->
     ValidateSnapshotArgs v = None ->
     validateCheckArgs ValidateSnapshotArgs v
       <> Some (ErrOnlyOneOf ArgShare ArgSnapshot) /\
     (IsSet_SearchPath v && IsSet_SearchPathPrefix v = false ->
      (String.length (GetString_Separator v) <= 1)%nat ->
      IsSet_Where v && IsSet_Tag v = false ->
      validateCheckArgs ValidateSnapshotArgs v = None)).
Proof.
  intros v. split.
  - intros [Hshare Hsnapshot].
    assert (Hex : exists err,
               validateCheckArgs ValidateSnapshotArgs v = Some err).
    { unfold validateCheckArgs. rewrite Hshare, Hsnapshot.
      destruct (ValidateSnapshotArgs v); [eauto |].
      destruct (_ && _); [eauto |].
      destruct (_ <? _)%nat; eauto. }
    destruct Hex as [err Herr]. exists err.
    pose proof (run_rejected w err Herr) as Hrun.
    split; [exact Herr |]. split; [exact Hrun |].
    rewrite Hrun. apply rejected_does_nothing.
  - intros Hone Hsnap. unfold validateCheckArgs. rewrite Hsnap.
    assert (Hboth : GetBool_Share v && GetBool_Snapshot v = false)
      by (destruct Hone as [-> | ->]; [reflexivity | apply andb_false_r]).
    rewrite Hboth. split.
    + repeat match goal with
             | |- context [if ?b then _ else _] => destruct b
             end; discriminate.
    + intros -> Hlen ->.
      apply Nat.ltb_ge in Hlen. rewrite Hlen. reflexivity.
Qed.

(** C2 (amended). When both [--where] and [--tag] are set the run fails at
    the validation of its arguments: [validateCheckArgs] returns an error,
    the error is shown, and the run ends before anything is initialised,
    before any tree is built and before anything is executed.  The error
    is the where/tag error whenever the four checks that come first
    (snapshot arguments, search path, separator, share/snapshot) pass;
    otherwise it is the error of the first of those four checks that
    fails: the error of the snapshot arguments, else the search-path
    error, else the separator error, else the share/snapshot error. *)
Theorem where_and_tag_rejected (w : World) :
  IsSet_Where (viper w) = true ->
  IsSet_Tag (viper w) = true ->
  let v := viper w in
  exists err,
    validateCheckArgs ValidateSnapshotArgs v = Some err /\
    run ValidateSnapshotArgs codes w = rejected codes err /\
    ~ In NewInitData (trace (run ValidateSnapshotArgs codes w)) /\
    ~ In NewExecutionTree (trace (run ValidateSnapshotArgs codes w)) /\
    ~ In TreeExecute (trace (run ValidateSnapshotArgs codes w)) /\
    (ValidateSnapshotArgs v = None ->
     IsSet_SearchPath v && IsSet_SearchPathPrefix v = false ->
     (String.length (GetString_Separator v) <= 1)%nat ->
     GetBool_Share v && GetBool_Snapshot v = false ->
     err = ErrOnlyOneOf ArgWhere ArgTag) /\
    (forall e, ValidateSnapshotArgs v = Some e -> err = e) /\
    (ValidateSnapshotArgs v = None ->
     IsSet_SearchPath v && IsSet_SearchPathPrefix v = true ->
     err = ErrSearchPath) /\
    (ValidateSnapshotArgs v = None ->
     IsSet_SearchPath v && IsSet_SearchPathPrefix v = false ->
     (1 < String.length (GetString_Separator v))%nat ->
     err = ErrAtMostOneCharacter ArgSeparator) /\
    (ValidateSnapshotArgs v = None ->
     IsSet_SearchPath v && IsSet_SearchPathPrefix v = false ->
     (String.length (GetString_Separator v) <= 1)%nat ->
     GetBool_Share v && GetBool_Snapshot v = true ->
     err = ErrOnlyOneOf ArgShare ArgSnapshot).
Proof.
  intros Hwhere Htag v.
  assert (Hex : exists err,
             validateCheckArgs ValidateSnapshotArgs v = Some err).
  { unfold validateCheckArgs. fold v in Hwhere, Htag.
    rewrite Hwhere, Htag.
    destruct (ValidateSnapshotArgs v); [eauto |].
    destruct (_ && _); [eauto |].
    destruct (_ <? _)%nat; [eauto |].
    destruct (_ && _); eauto. }
  destruct Hex as [err Herr]. exists err.
  pose proof (run_rejected w err Herr) as Hrun.
  split; [exact Herr |]. split; [exact Hrun |].
  rewrite Hrun.
  destruct (rejected_does_nothing err) as (H1 & H2 & H3).
  repeat (split; [assumption |]).
  unfold validateCheckArgs in Herr.
  fold v in Hwhere, Htag. rewrite Hwhere, Htag in Herr. simpl in Herr.
  split; [| split; [| split; [| split]]].
  - intros Hsnap Hpath Hlen Hshare.
    rewrite Hsnap, Hpath, Hshare in Herr.
    apply Nat.ltb_ge in Hlen. rewrite Hlen in Herr. congruence.
  - intros e Hsnap. rewrite Hsnap in Herr. congruence.
  - intros Hsnap Hpath. rewrite Hsnap, Hpath in Herr. congruence.
  - intros Hsnap Hpath Hlen. rewrite Hsnap, Hpath in Herr.
    apply Nat.ltb_lt in Hlen. rewrite Hlen in Herr. congruence.
  - intros Hsnap Hpath Hlen Hshare. rewrite Hsnap, Hpath, Hshare in Herr.
    apply Nat.ltb_ge in Hlen. rewrite Hlen in Herr. congruence.
Qed.

End ValidationProperties.

Lemma separator_check_witness :
  (exists err,
     validateCheckArgs snapshot_args_ok (config ";;" false false false false)
       = Some err) /\
  validateCheckArgs snapshot_args_ok (config "," false false false false)
    = None.
Proof.
  pose (w2 := world (config ";;" false false false false)
                    (Returns (tree_with 0 0, None)) (Returns None)
                    (Returns ([], None))).
  pose (w1 := world (config "," false false false false)
                    (Returns (tree_with 0 0, None)) (Returns None)
                    (Returns ([], None))).
  split.
  - destruct (proj1 (separator_check snapshot_args_ok sample_codes w2))
      as (err & Herr & _).
    + simpl. lia.
    + exists err. exact Herr.
  - apply (proj2 (separator_check snapshot_args_ok sample_codes w1)).
    + simpl. lia.
    + reflexivity.
    + reflexivity.
    + reflexivity.
    + reflexivity.
Defined.

(** A string has no more characters than bytes. *)
Lemma spec_characters_le_length (s : string) :
  (spec_characters s <= String.length s)%nat.
Proof.
  induction s as [|c s IH]; simpl; [lia |].
  destruct (is_continuation_byte c); lia.
Qed.

(** C8. The claim agrees with the comment above the separator check (only
    1 character is allowed for [--separator]) and with the error message
    of the check (1 character long at most): a separator of a single
    character passes.  The check departs from them, for it compares the
    number of bytes with 1: the separator [e_acute] is one character in
    two bytes, and a run with it, all other arguments being valid, is
    rejected with the separator error and ends before anything is
    initialised, while the same run with a comma passes the validation.
    The other half of the claim holds: a separator of more than one
    character is rejected. *)
Theorem one_character_separator_rejected :
  let v := config e_acute false false false false in
  let w := world v (Returns (tree_with 0 0, None)) (Returns None)
                 (Returns ([], None)) in
  spec_characters (GetString_Separator v) = 1%nat /\
  String.length (GetString_Separator v) = 2%nat /\
  validateCheckArgs snapshot_args_ok v
    = Some (ErrAtMostOneCharacter ArgSeparator) /\
  run snapshot_args_ok sample_codes w
    = rejected sample_codes (ErrAtMostOneCharacter ArgSeparator) /\
  ~ In NewInitData (trace (run snapshot_args_ok sample_codes w)) /\
  validateCheckArgs snapshot_args_ok (config "," false false false false)
    = None /\
  (forall (ValidateSnapshotArgs : Viper -> option error) (v' : Viper),
     (1 < spec_characters (GetString_Separator v'))%nat ->
     exists err, validateCheckArgs ValidateSnapshotArgs v' = Some err).
Proof.
  cbv zeta. do 4 (split; [reflexivity |]).
  split; [intros H; vm_compute in H; intuition discriminate |].
  split; [reflexivity |].
  intros VSA v' Hlen.
  pose proof (spec_characters_le_length (GetString_Separator v')) as Hle.
  unfold validateCheckArgs.
  destruct (VSA v'); [eauto |].
  destruct (_ && _); [eauto |].
  assert (Hltb : (1 <? String.length (GetString_Separator v'))%nat = true)
    by (apply Nat.ltb_lt; lia).
  rewrite Hltb. eauto.
Qed.

Lemma share_snapshot_check_witness :
  (exists err,
     validateCheckArgs snapshot_args_ok (config "," true true false false)
       = Some err) /\
  validateCheckArgs snapshot_args_ok (config "," true false false false)
    = None.
Proof.
  pose (w2 := world (config "," true true false false)
                    (Returns (tree_with 0 0, None)) (Returns None)
                    (Returns ([], None))).
  pose (w1 := world (config "," true false false false)
                    (Returns (tree_with 0 0, None)) (Returns None)
                    (Returns ([], None))).
  split.
  - destruct (proj1 (share_snapshot_check snapshot_args_ok sample_codes w2))
      as (err & Herr & _).
    + split; reflexivity.
    + exists err. exact Herr.
  - apply (proj2 (share_snapshot_check snapshot_args_ok sample_codes w1)).
    + right. reflexivity.
    + reflexivity.
    + reflexivity.
    + simpl. lia.
    + reflexivity.
Defined.

Lemma where_and_tag_rejected_witness :
  (exists err,
     validateCheckArgs snapshot_args_ok (config "," false false true true)
       = Some err /\
     err = ErrOnlyOneOf ArgWhere ArgTag) /\
  (exists err,
     validateCheckArgs snapshot_args_ok (config ";;" false false true true)
       = Some err /\
     err = ErrAtMostOneCharacter ArgSeparator).
Proof.
  pose (w1 := world (config "," false false true true)
                    (Returns (tree_with 0 0, None)) (Returns None)
                    (Returns ([], None))).
  pose (w2 := world (config ";;" false false true true)
                    (Returns (tree_with 0 0, None)) (Returns None)
                    (Returns ([], None))).
  split.
  - destruct (where_and_tag_rejected snapshot_args_ok sample_codes w1
                eq_refl eq_refl) as (err & Herr & _ & _ & _ & _ & Hwhich & _).
    exists err. split; [exact Herr |].
    apply Hwhich; [reflexivity | reflexivity | simpl; lia | reflexivity].
  - destruct (where_and_tag_rejected snapshot_args_ok sample_codes w2
                eq_refl eq_refl)
      as (err & Herr & _ & _ & _ & _ & _ & _ & _ & Hwhich & _).
    exists err. split; [exact Herr |].
    apply Hwhich; [reflexivity | reflexivity | simpl; lia].
Defined.

(** C2, as stated, fails: with [--where] and [--tag] both set and a
    separator of two bytes, the validation stops at the separator and the
    error of the run is the separator error, not the where/tag error. *)
Lemma where_and_tag_other_error :
  let v := config ";;" false false true true in
  IsSet_Where v = true /\ IsSet_Tag v = true /\
  validateCheckArgs snapshot_args_ok v
    = Some (ErrAtMostOneCharacter ArgSeparator) /\
  validateCheckArgs snapshot_args_ok v <> Some (ErrOnlyOneOf ArgWhere ArgTag) /\
  trace (run snapshot_args_ok sample_codes
           (world v (Returns (tree_with 0 0, None)) (Returns None)
                  (Returns ([], None))))
    = [ShowError (ErrAtMostOneCharacter ArgSeparator)].
Proof.
  cbv zeta. repeat split; try reflexivity. discriminate.
Qed.

(** ** The run of the command *)

Section RunProperties.
Variable ValidateSnapshotArgs : Viper -> option error.
Variable codes : RuntimeExitCodes.

#[local] Arguments getExitCode : simpl never.
#[local] Arguments incr_int : simpl never.

(** Every run ends in one of the six ways of [run_ends]: the proof walks
    the command along its returns. *)
Lemma run_ends_run (w : World) :
  run_ends ValidateSnapshotArgs codes w (run ValidateSnapshotArgs codes w).
Proof.
  destruct (validateCheckArgs ValidateSnapshotArgs (viper w))
    as [err|] eqn:Hv.
  { eapply ends_rejected; [exact Hv | apply run_rejected; exact Hv]. }
  destruct w as [v dump canc init newt nm exe fmt cp pub expo].
  cbn [viper] in Hv.
  unfold_run; cbn [viper]; rewrite Hv; cbn.
  destruct dump; cbn.
  { eapply ends_config_dump; [exact Hv | reflexivity | reflexivity]. }
  destruct init as [[e|]|r]; cbn; try finish Hv.
  destruct (canc InGetExecutionTree) eqn:Hc0; cbn; try finish Hv.
  destruct newt as [[t0 [e|]]|r]; cbn; try finish Hv.
  destruct (canc AfterNewExecutionTree) eqn:Hc1; cbn; try finish Hv.
  destruct exe as [[t [e|]]|r]; cbn; try finish Hv.
  destruct fmt as [[e|]|r]; cbn; try finish Hv.
  destruct cp as [[e|]|r]; cbn; try finish Hv.
  destruct (canc InPublishSnapshot) eqn:Hc2; cbn; try finish Hv.
  destruct (GetBool_Share v || GetBool_Snapshot v) eqn:Hsh; cbn;
    [destruct pub as [[e|]|r]; cbn; try finish Hv |].
  all: destruct (canc InExportExecutionTree) eqn:Hc3; cbn; try finish Hv.
  all: destruct expo as [[exportMsg [e|]]|r]; cbn; try finish Hv.
  all: destruct exportMsg as [|m ms]; cbn; try finish Hv.
  all: destruct (GetBool_Progress v); cbn; finish Hv.
Qed.

(** A panic of the body ends the run with the panic exit code. *)
Lemma run_panics (w : World) :
  panics ValidateSnapshotArgs codes w ->
  exitCode (run ValidateSnapshotArgs codes w)
    = ExitCodeUnknownErrorPanic codes.
Proof.
  intros [r Hr]. unfold run, runCheckCmd, defer_recover.
  destruct (runCheckCmd_body ValidateSnapshotArgs codes w initial_state)
    as [[a | r'] s']; simpl in Hr; [discriminate |].
  reflexivity.
Qed.

(** A failure of the initialisation ends the run with its exit code. *)
Lemma run_init_failed (w : World) (e : error) :
  validateCheckArgs ValidateSnapshotArgs (viper w) = None ->
  envConfigDump w = false ->
  initData_Result_Error w = Returns (Some e) ->
  run ValidateSnapshotArgs codes w =
    {| exitCode := ExitCodeInitializationFailed codes;
       totalAlarms := 0; totalErrors := 0;
       trace := [NewInitData; ShowError e] |}.
Proof.
  intros Hv Hdump Hinit. unfold_run. rewrite Hv, Hdump, Hinit. reflexivity.
Qed.

(** When every step succeeds, no failure is shown and the exit code is that
    of the counts of the root summary. *)
Lemma run_completes (w : World) (t0 t : ExecutionTree)
      (exportMsg : list string) :
  validateCheckArgs ValidateSnapshotArgs (viper w) = None ->
  envConfigDump w = false ->
  initData_Result_Error w = Returns None ->
  (forall c, ctxCanceled w c = false) ->
  NewExecutionTree_outcome w = Returns (t0, None) ->
  Execute_outcome w = Returns (t, None) ->
  Format_outcome w = Returns None ->
  Copy_outcome w = Returns None ->
  PublishSnapshot_outcome w = Returns None ->
  DoExport_outcome w = Returns (exportMsg, None) ->
  In TreeExecute (trace (run ValidateSnapshotArgs codes w)) /\
  ~ failure_shown (run ValidateSnapshotArgs codes w) /\
  exitCode (run ValidateSnapshotArgs codes w)
    = getExitCode (root_alarms t) (root_errors t).
Proof.
  intros Hv Hdump Hinit Hctx Hnew Hexe Hfmt Hcp Hpub Hexp.
  unfold_run.
  rewrite Hv, Hdump, Hinit, !Hctx, Hnew, Hexe, Hfmt, Hcp, Hpub, Hexp. cbn.
  destruct (GetBool_Share (viper w) || GetBool_Snapshot (viper w)); cbn;
    destruct exportMsg as [|m ms]; cbn;
    destruct (GetBool_Progress (viper w)); cbn;
    (split; [in_list | split; [not_shown | reflexivity]]).
Qed.

(** A step that fails counts as one more error: the exit code is 2. *)
Lemma step_failed_exit_code (w : World) (alarms errors : Z) :
  (forall t err, Execute_outcome w = Returns (t, err) -> counts_in_range t) ->
  (errors = 0 \/
   exists t, Execute_outcome w = Returns (t, None) /\
             errors = root_errors t) ->
  getExitCode alarms (incr_int errors) = ExitCodeControlsError.
Proof.
  intros Hrange Herrors. apply getExitCode_errors, incr_int_pos.
  destruct Herrors as [-> | (t & Ht & ->)].
  - unfold int_max. lia.
  - apply (Hrange t None Ht).
Qed.

(** The conditions on the world under which the three steps fail and
    succeed are the returns of the three functions, whatever the state
    they start in. *)
Lemma executeTree_returns (w : World) (t0 : ExecutionTree) (s0 : state) :
  (forall e,
     executeTree_fails w e <->
     exists t, fst (executeTree w t0 s0) = Returns (t, Some e)) /\
  (forall t,
     executeTree_succeeds w t <->
     fst (executeTree w t0 s0) = Returns (t, None)).
Proof.
  unfold executeTree_fails, executeTree_succeeds, executeTree,
    displayControlResults, mbind, M_bind, mret, M_ret, bind, ret, call.
  destruct (Execute_outcome w) as [[t' [e'|]]|r]; cbn;
    [| destruct (Format_outcome w) as [[e'|]|r]; cbn;
       [| destruct (Copy_outcome w) as [[e'|]|r]; cbn | ] |];
    (split; [intros e | intros t]; split;
     first [ solve [ intros [[t1 H] | (t1 & H & [H1 | [H1 H2]])];
                     simplify_eq; eexists; reflexivity ]
           | solve [ intros [t1 H]; simplify_eq;
                     first [ left; eexists; reflexivity
                           | right; eexists; split; [reflexivity |];
                             first [ left; reflexivity
                                   | right; split; reflexivity ] ] ]
           | solve [ intros (H & H1 & H2); simplify_eq; reflexivity ]
           | solve [ intros H; simplify_eq; repeat split ] ]).
Qed.

Lemma publishSnapshot_returns (w : World) (t : ExecutionTree) (s0 : state) :
  (forall e,
     publishSnapshot_fails w e <->
     fst (publishSnapshot w t (GetBool_Share (viper w))
            (GetBool_Snapshot (viper w)) s0) = Returns (Some e)) /\
  (publishSnapshot_succeeds w <->
   fst (publishSnapshot w t (GetBool_Share (viper w))
          (GetBool_Snapshot (viper w)) s0) = Returns None).
Proof.
  unfold publishSnapshot_fails, publishSnapshot_succeeds, publishSnapshot,
    mret, M_ret, ret, call.
  destruct (ctxCanceled w InPublishSnapshot); cbn;
    [| destruct (GetBool_Share (viper w) || GetBool_Snapshot (viper w));
       cbn; [destruct (PublishSnapshot_outcome w) as [[e'|]|r]; cbn |] ];
    (split; [intros e |]; split;
     first [ solve [ intros [[H ->] | (H & H1 & H2)]; simplify_eq;
                     reflexivity ]
           | solve [ intros H; simplify_eq;
                     first [ left; split; reflexivity
                           | right; repeat split; reflexivity ] ]
           | solve [ intros _; reflexivity ]
           | solve [ intros [H H1];
                     first [discriminate H | specialize (H1 eq_refl)];
                     simplify_eq; reflexivity ]
           | solve [ intros H; simplify_eq;
                     split; [reflexivity | intros; congruence] ] ]).
Qed.

Lemma exportExecutionTree_returns (w : World) (namedTree : namedExecutionTree)
      (s0 : state) :
  (forall e,
     exportExecutionTree_fails w e <->
     fst (exportExecutionTree w namedTree (GetStringSlice_Export (viper w))
            s0) = Returns (Some e)) /\
  (exportExecutionTree_succeeds w <->
   fst (exportExecutionTree w namedTree (GetStringSlice_Export (viper w))
          s0) = Returns None).
Proof.
  unfold exportExecutionTree_fails, exportExecutionTree_succeeds,
    exportExecutionTree, emit, mbind, M_bind, mret, M_ret, bind, ret, call.
  destruct (ctxCanceled w InExportExecutionTree); cbn;
    [| destruct (DoExport_outcome w) as [[msgs [e'|]]|r]; cbn;
       [| destruct msgs as [|m ms]; cbn;
          destruct (GetBool_Progress (viper w)); cbn |] ];
    (split; [intros e |]; split;
     first [ solve [ intros [[H ->] | (H & ? & H1)]; simplify_eq;
                     reflexivity ]
           | solve [ intros H; simplify_eq;
                     first [ left; split; reflexivity
                           | right; split;
                             [reflexivity | eexists; reflexivity] ] ]
           | solve [ intros (H & ? & H1); simplify_eq; reflexivity ]
           | solve [ intros H; simplify_eq;
                     split; [reflexivity | eexists; reflexivity] ] ]).
Qed.

(** A run that reaches [tree.Execute] has built its tree. *)
Lemma reaches_execution_inv (w : World) :
  In TreeExecute (trace (run ValidateSnapshotArgs codes w)) ->
  exists t0, tree_built ValidateSnapshotArgs w t0.
Proof.
  walk_run ltac:(first [ cbn; intuition discriminate
                       | intros _; eexists; unfold tree_built, initialised;
                         cbn; repeat split;
                         first [assumption | reflexivity] ]).
Qed.

(** A panic of the body is shown. *)
Lemma run_panics_shown (w : World) :
  panics ValidateSnapshotArgs codes w ->
  failure_shown (run ValidateSnapshotArgs codes w).
Proof.
  intros [r Hr]. unfold failure_shown, run, runCheckCmd, defer_recover.
  destruct (runCheckCmd_body ValidateSnapshotArgs codes w initial_state)
    as [[a | r'] s']; simpl in Hr; [discriminate |].
  exists r'. cbn. apply in_or_app. right. left. reflexivity.
Qed.

(** The three steps after the building of the tree return without error:
    nothing is shown, and the exit code is that of the root summary. *)
Lemma steps_succeed (w : World) (t0 t : ExecutionTree) :
  tree_built ValidateSnapshotArgs w t0 ->
  executeTree_succeeds w t ->
  publishSnapshot_succeeds w ->
  exportExecutionTree_succeeds w ->
  ~ failure_shown (run ValidateSnapshotArgs codes w) /\
  exitCode (run ValidateSnapshotArgs codes w)
    = getExitCode (root_alarms t) (root_errors t).
Proof.
  intros ((Hv0 & Hdump & Hinit) & Hc0 & Hnew & Hc1) (He & Hf & Hcp)
         (Hc2 & Hpub) (Hc3 & msgs & Hexp).
  unfold_run.
  rewrite Hv0, Hdump, Hinit, Hc0, Hnew, Hc1, He, Hf, Hcp, Hc2, Hc3, Hexp.
  cbn.
  destruct (GetBool_Share (viper w) || GetBool_Snapshot (viper w));
    [rewrite (Hpub eq_refl) |]; cbn;
    destruct msgs as [|m ms]; cbn;
    destruct (GetBool_Progress (viper w)); cbn;
    (split; [not_shown | reflexivity]).
Qed.

(** [executeTree] returns an error: it is shown, and counted as the one
    error of the run. *)
Lemma execution_fails (w : World) (t0 : ExecutionTree) (e : error) :
  tree_built ValidateSnapshotArgs w t0 ->
  executeTree_fails w e ->
  In (ShowError e) (trace (run ValidateSnapshotArgs codes w)) /\
  exitCode (run ValidateSnapshotArgs codes w) = getExitCode 0 (incr_int 0).
Proof.
  intros ((Hv0 & Hdump & Hinit) & Hc0 & Hnew & Hc1) Hfail.
  destruct Hfail as [[t He] | [t [He [Hf | [Hf Hc]]]]];
    walk_run ltac:(settle).
Qed.

(** [publishSnapshot] returns an error: it is shown, and counted on top of
    the errors of the root summary. *)
Lemma publication_fails (w : World) (t0 t : ExecutionTree) (e : error) :
  tree_built ValidateSnapshotArgs w t0 ->
  executeTree_succeeds w t ->
  publishSnapshot_fails w e ->
  In (ShowError e) (trace (run ValidateSnapshotArgs codes w)) /\
  exitCode (run ValidateSnapshotArgs codes w)
    = getExitCode (root_alarms t) (incr_int (root_errors t)).
Proof.
  intros ((Hv0 & Hdump & Hinit) & Hc0 & Hnew & Hc1) (He & Hf & Hcp) Hfail.
  destruct Hfail as [[Hc2 ->] | (Hc2 & Hsh & Hpub)];
    walk_run ltac:(settle).
Qed.

(** [exportExecutionTree] returns an error: it is shown, and counted on
    top of the errors of the root summary. *)
Lemma export_fails (w : World) (t0 t : ExecutionTree) (e : error) :
  tree_built ValidateSnapshotArgs w t0 ->
  executeTree_succeeds w t ->
  publishSnapshot_succeeds w ->
  exportExecutionTree_fails w e ->
  In (ShowError e) (trace (run ValidateSnapshotArgs codes w)) /\
  exitCode (run ValidateSnapshotArgs codes w)
    = getExitCode (root_alarms t) (incr_int (root_errors t)).
Proof.
  intros ((Hv0 & Hdump & Hinit) & Hc0 & Hnew & Hc1) (He & Hf & Hcp)
         (Hc2 & Hpub) Hfail.
  unfold_run.
  rewrite Hv0, Hdump, Hinit, Hc0, Hnew, Hc1, He, Hf, Hcp, Hc2. cbn.
  destruct (GetBool_Share (viper w) || GetBool_Snapshot (viper w));
    [rewrite (Hpub eq_refl) |]; cbn;
    (destruct Hfail as [[Hc3 ->] | (Hc3 & msgs & Hexp)];
     [rewrite Hc3 | rewrite Hc3, Hexp]; cbn;
     (split; [in_list | reflexivity])).
Qed.

(** A run that reaches execution and shows no failure: its three steps
    have returned without error. *)
Lemma no_failure_inv (w : World) :
  In TreeExecute (trace (run ValidateSnapshotArgs codes w)) ->
  ~ failure_shown (run ValidateSnapshotArgs codes w) ->
  exists t, executeTree_succeeds w t /\
            publishSnapshot_succeeds w /\
            exportExecutionTree_succeeds w.
Proof.
  walk_run ltac:(first
    [ solve [cbn; intuition discriminate]
    | solve [let Hns := fresh "Hns" in
             intros _ Hns; exfalso; apply Hns; shown]
    | intros _ _; eexists;
      unfold executeTree_succeeds, publishSnapshot_succeeds,
        exportExecutionTree_succeeds;
      cbn;
      repeat match goal with
             | Hs : GetBool_Share _ = _ |- _ => rewrite Hs
             | Hs : GetBool_Snapshot _ = _ |- _ => rewrite Hs
             end;
      cbn; repeat split;
      first [ assumption | reflexivity | discriminate
            | eexists; reflexivity ] ]).
Qed.

(** C3 (amended). For every run that reaches execution, with counts of the
    root summary that are not negative, an error count below the largest
    [int], and a panic exit code of 3 or more: when [executeTree],
    [publishSnapshot] and [exportExecutionTree] all return without error,
    no failure is shown and the exit code is that of the alarm and error
    counts of the root summary, and a run that shows no failure is such a
    run; when one of the three steps returns an error (a canceled context
    that [publishSnapshot] or [exportExecutionTree] finds is such an
    error), the error is shown and the exit code is not the success code
    0; when the run panics, the panic is shown and the exit code is not
    0; and the run never ends with the success code 0 when a failure was
    shown, when the root summary counts any error, or when its context is
    canceled at the time the snapshot or the export asks. *)
Theorem exit_code_after_execution (w : World) :
  In TreeExecute (trace (run ValidateSnapshotArgs codes w)) ->
  (forall t err, Execute_outcome w = Returns (t, err) -> counts_in_range t) ->
  3 <= ExitCodeUnknownErrorPanic codes ->
  let s := run ValidateSnapshotArgs codes w in
  (forall t,
     executeTree_succeeds w t ->
     publishSnapshot_succeeds w ->
     exportExecutionTree_succeeds w ->
     ~ failure_shown s /\
     exitCode s = getExitCode (root_alarms t) (root_errors t)) /\
  (forall e,
     executeTree_fails w e ->
     In (ShowError e) (trace s) /\ exitCode s <> ExitCodeSuccessful) /\
  (forall t e,
     executeTree_succeeds w t ->
     publishSnapshot_fails w e ->
     In (ShowError e) (trace s) /\ exitCode s <> ExitCodeSuccessful) /\
  (forall t e,
     executeTree_succeeds w t ->
     publishSnapshot_succeeds w ->
     exportExecutionTree_fails w e ->
     In (ShowError e) (trace s) /\ exitCode s <> ExitCodeSuccessful) /\
  (panics ValidateSnapshotArgs codes w ->
     failure_shown s /\ exitCode s <> ExitCodeSuccessful) /\
  (~ failure_shown s ->
     exists t, Execute_outcome w = Returns (t, None) /\
               exitCode s = getExitCode (root_alarms t) (root_errors t) /\
               executeTree_succeeds w t /\
               publishSnapshot_succeeds w /\
               exportExecutionTree_succeeds w) /\
  (failure_shown s -> exitCode s <> ExitCodeSuccessful) /\
  ((exists t err, Execute_outcome w = Returns (t, err) /\
                  0 < root_errors t) ->
     exitCode s <> ExitCodeSuccessful) /\
  (ctxCanceled w InPublishSnapshot = true \/
   ctxCanceled w InExportExecutionTree = true ->
     exitCode s <> ExitCodeSuccessful).
Proof.
  intros Hin Hrange Hpanic s. subst s.
  destruct (reaches_execution_inv w Hin) as [t0 Hbuilt].
  assert (Hstep : forall t,
             executeTree_succeeds w t ->
             getExitCode (root_alarms t) (incr_int (root_errors t))
               <> ExitCodeSuccessful).
  { intros t (He & _ & _).
    rewrite (getExitCode_errors _ _
               (incr_int_pos _ (proj2 (Hrange t None He)))).
    discriminate. }
  split; [| split; [| split; [| split; [| split; [| split]]]]].
  - intros t Hexe Hpub Hexp. exact (steps_succeed w t0 t Hbuilt Hexe Hpub Hexp).
  - intros e Hfail.
    destruct (execution_fails w t0 e Hbuilt Hfail) as [Hshown Hexit].
    split; [exact Hshown |]. rewrite Hexit. discriminate.
  - intros t e Hexe Hfail.
    destruct (publication_fails w t0 t e Hbuilt Hexe Hfail)
      as [Hshown Hexit].
    split; [exact Hshown |]. rewrite Hexit. exact (Hstep t Hexe).
  - intros t e Hexe Hpub Hfail.
    destruct (export_fails w t0 t e Hbuilt Hexe Hpub Hfail)
      as [Hshown Hexit].
    split; [exact Hshown |]. rewrite Hexit. exact (Hstep t Hexe).
  - intros Hp. split; [exact (run_panics_shown w Hp) |].
    rewrite (run_panics w Hp). unfold ExitCodeSuccessful. lia.
  - intros Hnot.
    destruct (no_failure_inv w Hin Hnot) as (t & Hexe & Hpub & Hexp).
    exists t. split; [exact (proj1 Hexe) |].
    split; [exact (proj2 (steps_succeed w t0 t Hbuilt Hexe Hpub Hexp)) |].
    repeat split; first [apply Hexe | apply Hpub | apply Hexp].
  - destruct (run_ends_run w)
      as [err Hv Hs | Hv Hdump Hs | e Hv Hinit Hnot Hshown Hexit
          | Hv Hp Hshown Hexit
          | alarms errors Hv _ Hshown Hexit Herrors
          | t Hv _ Hnot Hexe Hc2 Hc3 Hexit].
    + rewrite Hs in Hin. simpl in Hin. intuition discriminate.
    + rewrite Hs in Hin. simpl in Hin. intuition discriminate.
    + contradiction.
    + rewrite Hexit. unfold ExitCodeSuccessful.
      split; [intros _; lia |].
      split; intros _; lia.
    + rewrite Hexit, (step_failed_exit_code w alarms errors Hrange Herrors).
      split; [intros _; discriminate |].
      split; intros _; discriminate.
    + split; [intros H; contradiction |].
      split.
      * intros (t' & err & Hexe' & Hpos).
        rewrite Hexe in Hexe'. injection Hexe' as <- <-.
        rewrite Hexit, (getExitCode_errors _ _ Hpos). discriminate.
      * rewrite Hc2, Hc3. intros [H | H]; discriminate.
Qed.

(** What the exit code of this command tells about the run, with runtime
    exit codes of 3 or more and counts that are counts: every exit code is
    0, 1, 2 or at least 3;
    a failed validation of the arguments, a failed initialisation and a
    panic end with their own codes, all at least 3;
    0 only when no failure was shown and either the run only displayed the
    configuration or it completed with no alarms and no errors;
    1 only when no failure was shown and the run completed with alarms
    and no errors;
    2 when the root summary counts control errors, and also when a step
    of the run after the tree was built (execution and display, snapshot
    publication, export) failed. *)
Lemma exit_code_partition (w : World) :
  runtime_codes_from_3 codes ->
  (forall t err, Execute_outcome w = Returns (t, err) -> counts_in_range t) ->
  let s := run ValidateSnapshotArgs codes w in
  ((exitCode s = 0 \/ exitCode s = 1 \/ exitCode s = 2) \/
   3 <= exitCode s) /\
  (forall err,
     validateCheckArgs ValidateSnapshotArgs (viper w) = Some err ->
     exitCode s = ExitCodeInsufficientOrWrongInputs codes /\
     3 <= exitCode s) /\
  (forall e,
     validateCheckArgs ValidateSnapshotArgs (viper w) = None ->
     envConfigDump w = false ->
     initData_Result_Error w = Returns (Some e) ->
     exitCode s = ExitCodeInitializationFailed codes /\ 3 <= exitCode s) /\
  (panics ValidateSnapshotArgs codes w ->
     exitCode s = ExitCodeUnknownErrorPanic codes /\ 3 <= exitCode s) /\
  (exitCode s = ExitCodeSuccessful ->
     ~ failure_shown s /\
     (envConfigDump w = true \/
      exists t, Execute_outcome w = Returns (t, None) /\
                root_alarms t = 0 /\ root_errors t = 0)) /\
  (exitCode s = ExitCodeControlsAlarm ->
     ~ failure_shown s /\
     exists t, Execute_outcome w = Returns (t, None) /\
               0 < root_alarms t /\ root_errors t = 0) /\
  (exitCode s = ExitCodeControlsError ->
     (exists t, Execute_outcome w = Returns (t, None) /\
                0 < root_errors t) \/
     (In TreeExecute (trace s) /\ failure_shown s)).
Proof.
  intros (Hc1 & Hc2 & Hc3) Hrange s. subst s.
  unfold ExitCodeSuccessful, ExitCodeControlsAlarm, ExitCodeControlsError.
  split; [| split; [| split; [| split]]].
  - destruct (run_ends_run w)
      as [err Hv Hs | Hv Hdump Hs | e Hv Hinit Hnot Hshown Hexit
          | Hv Hp Hshown Hexit
          | alarms errors Hv _ Hshown Hexit Herrors
          | t Hv _ Hnot Hexe _ _ Hexit].
    + rewrite Hs. simpl. right. exact Hc1.
    + rewrite Hs. simpl. left; left. reflexivity.
    + rewrite Hexit. right. exact Hc2.
    + rewrite Hexit. right. exact Hc3.
    + rewrite Hexit, (step_failed_exit_code w alarms errors Hrange Herrors).
      left; right; right. reflexivity.
    + rewrite Hexit.
      destruct (getExitCode_inv (root_alarms t) (root_errors t))
        as [(-> & _) | [(-> & _) | (-> & _)]]; auto.
  - intros err Hv. rewrite (run_rejected _ _ w err Hv). simpl.
    split; [reflexivity | exact Hc1].
  - intros e Hv Hdump Hinit.
    rewrite (run_init_failed w e Hv Hdump Hinit). simpl.
    split; [reflexivity | exact Hc2].
  - intros Hp. rewrite (run_panics w Hp). split; [reflexivity | exact Hc3].
  - destruct (run_ends_run w)
      as [err Hv Hs | Hv Hdump Hs | e Hv Hinit Hnot Hshown Hexit
          | Hv Hp Hshown Hexit
          | alarms errors Hv Hin Hshown Hexit Herrors
          | t Hv Hin Hnot Hexe _ _ Hexit].
    + rewrite Hs. simpl. repeat split; intros; lia.
    + rewrite Hs. simpl.
      split; [| split]; [| intros; discriminate | intros; discriminate].
      intros _. split; [not_shown | left; exact Hdump].
    + rewrite Hexit. repeat split; intros; lia.
    + rewrite Hexit. repeat split; intros; lia.
    + rewrite Hexit, (step_failed_exit_code w alarms errors Hrange Herrors).
      unfold ExitCodeControlsError.
      split; [| split]; [intros; discriminate | intros; discriminate |].
      intros _. right. split; assumption.
    + rewrite Hexit. destruct (Hrange t None Hexe) as (Ha & He & _).
      fold (root_alarms t) in Ha. fold (root_errors t) in He.
      destruct (getExitCode_inv (root_alarms t) (root_errors t))
        as [(-> & He0 & Ha0) | [(-> & He0 & Ha0) | (-> & He0)]].
      * split; [| split]; [| intros; discriminate | intros; discriminate].
        intros _. split; [exact Hnot |].
        right. exists t. repeat split; [exact Hexe | lia | lia].
      * split; [| split]; [intros; discriminate | | intros; discriminate].
        intros _. split; [exact Hnot |].
        exists t. repeat split; [exact Hexe | lia | lia].
      * split; [| split]; [intros; discriminate | intros; discriminate |].
        intros _. left. exists t. split; [exact Hexe | exact He0].
Qed.

End RunProperties.

Lemma exit_code_after_execution_witness :
  let w := world (config "," true false false false)
                 (Returns (tree_with 3 0, None))
                 (Returns (Some (ErrOther "publish failed")))
                 (Returns ([], None)) in
  In TreeExecute (trace (run snapshot_args_ok sample_codes w)) /\
  In (ShowError (ErrOther "publish failed"))
     (trace (run snapshot_args_ok sample_codes w)) /\
  exitCode (run snapshot_args_ok sample_codes w) <> ExitCodeSuccessful.
Proof.
  cbv zeta.
  assert (Hin : In TreeExecute
                  (trace (run snapshot_args_ok sample_codes
                            (world (config "," true false false false)
                                   (Returns (tree_with 3 0, None))
                                   (Returns (Some (ErrOther "publish failed")))
                                   (Returns ([], None))))))
    by (vm_compute; tauto).
  split; [exact Hin |].
  assert (Hrange : forall t err,
             Execute_outcome
               (world (config "," true false false false)
                      (Returns (tree_with 3 0, None))
                      (Returns (Some (ErrOther "publish failed")))
                      (Returns ([], None))) = Returns (t, err) ->
             counts_in_range t).
  { intros t err H. injection H as <- <-.
    unfold counts_in_range, int_max. simpl. lia. }
  assert (Hcode : 3 <= ExitCodeUnknownErrorPanic sample_codes)
    by (simpl; lia).
  destruct (exit_code_after_execution snapshot_args_ok sample_codes _
              Hin Hrange Hcode) as (_ & _ & Hpub & _).
  apply (Hpub (tree_with 3 0) (ErrOther "publish failed")).
  - repeat split.
  - right. repeat split.
Defined.

(** C3, as stated, fails: a run that reaches execution, whose root summary
    counts no alarm and no error, and whose export fails, ends with the
    exit code 2, not with the exit code 0 of its counts. *)
Lemma export_failure_exit_code :
  let w := world (config "," false false false false)
                 (Returns (tree_with 0 0, None)) (Returns None)
                 (Returns ([], Some (ErrOther "export failed"))) in
  In TreeExecute (trace (run snapshot_args_ok sample_codes w)) /\
  Execute_outcome w = Returns (tree_with 0 0, None) /\
  getExitCode (root_alarms (tree_with 0 0)) (root_errors (tree_with 0 0))
    = 0 /\
  exitCode (run snapshot_args_ok sample_codes w) = 2 /\
  exitCode (run snapshot_args_ok sample_codes w)
    <> getExitCode (root_alarms (tree_with 0 0)) (root_errors (tree_with 0 0)).
Proof.
  cbv zeta. split; [vm_compute; tauto |].
  repeat split; try reflexivity. vm_compute. discriminate.
Qed.

(** C7. The comment above [runCheckCmd] and the claim agree: 2 is the exit
    code of a run without runtime errors in which control errors are
    present, and a runtime failure exits with a code of 3 or more.  The
    command departs from both: a run whose arguments are valid, whose
    initialisation succeeds, that does not panic and whose root summary
    counts no alarm and no control error, but whose snapshot publication
    fails, ends with the exit code 2. *)
Theorem publish_failure_exit_code :
  let w := world (config "," true false false false)
                 (Returns (tree_with 0 0, None))
                 (Returns (Some (ErrOther "publish failed")))
                 (Returns ([], None)) in
  validateCheckArgs snapshot_args_ok (viper w) = None /\
  initData_Result_Error w = Returns None /\
  ~ panics snapshot_args_ok sample_codes w /\
  Execute_outcome w = Returns (tree_with 0 0, None) /\
  root_alarms (tree_with 0 0) = 0 /\
  root_errors (tree_with 0 0) = 0 /\
  trace (run snapshot_args_ok sample_codes w)
    = [NewInitData; DisplayMessages; NewExecutionTree; TreeExecute;
       FormatterFormat; CopyToStdout; PublishSnapshot true;
       ShowError (ErrOther "publish failed"); Cleanup] /\
  exitCode (run snapshot_args_ok sample_codes w) = ExitCodeControlsError /\
  exitCode (run snapshot_args_ok sample_codes w) < 3.
Proof.
  cbv zeta. split; [reflexivity |]. split; [reflexivity |].
  split; [| repeat split; reflexivity].
  intros [r H]. vm_compute in H. discriminate.
Qed.

(** Why the error count has to stay below the largest [int]: at the
    largest [int], [totalErrors++] wraps around and the failed export goes
    unnoticed. *)
Lemma exit_code_at_int_max :
  exitCode (run snapshot_args_ok sample_codes
              (world (config "," false false false false)
                     (Returns (tree_with 0 int_max, None)) (Returns None)
                     (Returns ([], Some (ErrOther "export failed")))))
    = ExitCodeSuccessful.
Proof. vm_compute. reflexivity. Qed.

(** ** [NewLeafData] *)

Import localqueryresult dashboardtypes.

Local Open Scope nat_scope.

Section LeafDataProperties.
Context {ColumnDef V : Type}.
Variable Name : ColumnDef -> string.

(** The inner loop does not panic when the cells fit the columns. *)
Lemma fill_rowData_fits (cols : list ColumnDef) (data : list V) :
  forall (i : nat) (rowData : gmap string V),
    i + length data <= length cols ->
    is_Some (fill_rowData Name cols i data rowData).
Proof.
  induction data as [|d rest IH]; intros i rowData Hlen; simpl in *.
  - eauto.
  - destruct (lookup_lt_is_Some_2 cols i) as [c Hc]; [lia |].
    rewrite Hc. apply IH. lia.
Qed.

(** It panics when they do not. *)
Lemma fill_rowData_overflow (cols : list ColumnDef) (data : list V) :
  forall (i : nat) (rowData : gmap string V),
    i <= length cols < i + length data ->
    fill_rowData Name cols i data rowData = None.
Proof.
  induction data as [|d rest IH]; intros i rowData Hlen; simpl in *.
  - lia.
  - destruct (cols !! i) as [c|] eqn:Hc; [| reflexivity].
    apply IH. apply lookup_lt_Some in Hc. lia.
Qed.

(** With pairwise distinct column names, the map after the loop holds the
    cell of every column the loop went over, and is as before elsewhere. *)
Lemma fill_rowData_lookup (cols : list ColumnDef) (data : list V) :
  NoDup (Name <$> cols) ->
  forall (i : nat) (rowData rowData' : gmap string V),
    fill_rowData Name cols i data rowData = Some rowData' ->
    (forall (j : nat) (c : ColumnDef),
       cols !! j = Some c ->
       rowData' !! Name c =
         if decide (i <= j) then
           match data !! (j - i) with
           | Some v => Some v
           | None => rowData !! Name c
           end
         else rowData !! Name c) /\
    (forall k : string, k ∉ Name <$> cols -> rowData' !! k = rowData !! k).
Proof.
  intros Hnodup.
  induction data as [|d rest IH]; intros i rowData rowData' Hfill;
    simpl in Hfill.
  - injection Hfill as <-. split; [| reflexivity].
    intros j c _. destruct (decide (i <= j)); [| reflexivity].
    rewrite lookup_nil. reflexivity.
  - destruct (cols !! i) as [c0|] eqn:Hc0; [| discriminate].
    destruct (IH _ _ _ Hfill) as [IHcols IHother]. split.
    + intros j c Hc. rewrite (IHcols j c Hc).
      destruct (decide (S i <= j)) as [Hle | Hnle].
      * rewrite decide_True by lia.
        replace (j - i) with (S (j - S i)) by lia. simpl.
        destruct (rest !! (j - S i)); [reflexivity |].
        apply lookup_insert_ne. intros Heq.
        assert (i = j); [| lia].
        apply (NoDup_lookup (Name <$> cols) i j (Name c0)); [exact Hnodup | |].
        -- rewrite list_lookup_fmap, Hc0. reflexivity.
        -- rewrite list_lookup_fmap, Hc, Heq. reflexivity.
      * destruct (decide (i <= j)) as [Hle | Hnle'].
        -- assert (j = i) as -> by lia. rewrite Hc0 in Hc.
           injection Hc as ->. rewrite Nat.sub_diag. simpl.
           apply lookup_insert_eq.
        -- apply lookup_insert_ne. intros Heq.
           assert (i = j); [| lia].
           apply (NoDup_lookup (Name <$> cols) i j (Name c0));
             [exact Hnodup | |].
           ++ rewrite list_lookup_fmap, Hc0. reflexivity.
           ++ rewrite list_lookup_fmap, Hc, Heq. reflexivity.
    + intros k Hk. rewrite (IHother k Hk).
      apply lookup_insert_ne. intros <-. apply Hk.
      apply list_elem_of_fmap. exists c0. split; [reflexivity |].
      apply list_elem_of_lookup. eauto.
Qed.

(** The outer loop: when no row has more cells than there are columns, it
    does not panic, it leaves the rows before [rowIdx] alone, and it puts
    at [rowIdx + k] the map of the [k]-th remaining row. *)
Lemma fill_Rows_spec (cols : list ColumnDef)
      (source : list (RowResult V)) :
  (forall row, row ∈ source -> length (Data row) <= length cols) ->
  forall (rowIdx : nat) (rows : list (gmap string V)),
    length rows = rowIdx + length source ->
    exists rows',
      fill_Rows Name cols rowIdx source rows = Some rows' /\
      length rows' = length rows /\
      (forall k, k < rowIdx -> rows' !! k = rows !! k) /\
      (forall k row,
         source !! k = Some row ->
         exists rowData,
           fill_rowData Name cols 0 (Data row) ∅ = Some rowData /\
           rows' !! (rowIdx + k) = Some rowData).
Proof.
  induction source as [|row rest IH]; intros Hfit rowIdx rows Hlen;
    simpl in *.
  - exists rows. split; [reflexivity |]. split; [reflexivity |].
    split; [reflexivity |]. intros k row Hk. rewrite lookup_nil in Hk.
    discriminate.
  - destruct (fill_rowData_fits cols (Data row) 0 ∅) as [rowData Hrow].
    { simpl. apply Hfit. left. }
    rewrite Hrow.
    destruct (IH (fun r Hr => Hfit r (list_elem_of_further _ _ _ Hr))
                 (S rowIdx) (<[rowIdx := rowData]> rows))
      as (rows' & Hrows' & Hlen' & Hbefore & Hat).
    { rewrite length_insert. lia. }
    exists rows'. split; [exact Hrows' |].
    split; [rewrite Hlen', length_insert; reflexivity |].
    split.
    + intros k Hk. rewrite (Hbefore k) by lia.
      apply list_lookup_insert_ne. lia.
    + intros [|k] row' Hk; simpl in Hk.
      * injection Hk as <-. exists rowData. split; [exact Hrow |].
        rewrite Nat.add_0_r, (Hbefore rowIdx) by lia.
        apply list_lookup_insert_eq. lia.
      * destruct (Hat k row' Hk) as (rowData' & Hfill & Hlook).
        exists rowData'. split; [exact Hfill |].
        rewrite <- Hlook. f_equal. lia.
Qed.

(** C4 (amended). For every sync query result whose column names are
    pairwise distinct and none of whose rows has more cells than there are
    columns, [NewLeafData] produces a [LeafData] whose [Columns] are the
    columns of the result (same elements, same order), whose [Rows] are as
    many as the rows of the result and in their order, and where the row
    produced for a source row maps the name of the i-th column to the i-th
    cell of that row (to nothing when the row has no i-th cell) and maps
    no other name. *)
Theorem NewLeafData_mirrors_result (result : SyncQueryResult ColumnDef V) :
  NoDup (Name <$> Cols result) ->
  (forall row, row ∈ localqueryresult.Rows result ->
               length (Data row) <= length (Cols result)) ->
  exists leafData,
    NewLeafData Name result = Some leafData /\
    Columns leafData = Cols result /\
    length (Rows leafData) = length (localqueryresult.Rows result) /\
    forall (rowIdx : nat) (row : RowResult V),
      localqueryresult.Rows result !! rowIdx = Some row ->
      exists rowData,
        Rows leafData !! rowIdx = Some rowData /\
        (forall (i : nat) (c : ColumnDef),
           Cols result !! i = Some c ->
           rowData !! Name c = Data row !! i) /\
        (forall k : string,
           k ∉ Name <$> Cols result -> rowData !! k = None).
Proof.
  intros Hnodup Hfit. unfold NewLeafData.
  destruct (fill_Rows_spec (Cols result) (localqueryresult.Rows result) Hfit
              0 (replicate (length (localqueryresult.Rows result)) ∅))
    as (rows' & Hrows' & Hlen' & _ & Hat).
  { rewrite length_replicate. reflexivity. }
  rewrite Hrows'. eexists. split; [reflexivity |]. simpl.
  split; [reflexivity |].
  split; [rewrite Hlen', length_replicate; reflexivity |].
  intros rowIdx row Hrow.
  destruct (Hat rowIdx row Hrow) as (rowData & Hfill & Hlook).
  exists rowData. split; [exact Hlook |].
  destruct (fill_rowData_lookup (Cols result) (Data row) Hnodup 0 ∅ rowData
              Hfill) as [Hcols Hother].
  split.
  - intros i c Hc. rewrite (Hcols i c Hc).
    rewrite decide_True by lia. rewrite Nat.sub_0_r.
    destruct (Data row !! i); [reflexivity | apply lookup_empty].
  - intros k Hk. rewrite (Hother k Hk). apply lookup_empty.
Qed.
End LeafDataProperties.

Local Open Scope Z_scope.

Lemma NewLeafData_mirrors_result_witness :
  exists leafData,
    NewLeafData column_name result_two_rows = Some leafData /\
    Columns leafData = ["id"; "reason"] /\
    exists rowData,
      Rows leafData !! 1%nat = Some rowData /\
      rowData !! "id" = Some 2 /\ rowData !! "reason" = Some 20.
Proof.
  assert (Hnodup : NoDup (column_name <$> Cols result_two_rows)).
  { simpl. unfold column_name.
    apply NoDup_cons. split; [| apply NoDup_singleton].
    intros Hin. apply list_elem_of_singleton in Hin. discriminate. }
  assert (Hfit : forall row,
             row ∈ localqueryresult.Rows result_two_rows ->
             (length (Data row) <= length (Cols result_two_rows))%nat).
  { intros row Hrow. simpl in Hrow.
    apply elem_of_cons in Hrow as [-> | Hrow]; [simpl; lia |].
    apply elem_of_cons in Hrow as [-> | Hrow]; [simpl; lia |].
    apply elem_of_nil in Hrow. contradiction. }
  destruct (NewLeafData_mirrors_result column_name result_two_rows
              Hnodup Hfit) as (leafData & Hnew & Hcols & _ & Hrows).
  exists leafData. split; [exact Hnew |]. split; [exact Hcols |].
  destruct (Hrows 1%nat {| Data := [2; 20] |} eq_refl)
    as (rowData & Hrow & Hcells & _).
  exists rowData. split; [exact Hrow |].
  split; [apply (Hcells 0%nat "id" eq_refl)
         | apply (Hcells 1%nat "reason" eq_refl)].
Defined.

(** C4, as stated, fails.  With two columns of the same name the row maps
    that name to the last of their cells: column 0 is named [a], the cell
    0 of the row is 1, and the row produced maps [a] to 2.  With a row of
    more cells than there are columns [NewLeafData] panics and produces no
    [LeafData]. *)
Lemma same_names_last_cell_wins :
  Cols result_same_names !! 0%nat = Some "a" /\
  (exists row, localqueryresult.Rows result_same_names !! 0%nat = Some row /\
               Data row !! 0%nat = Some 1) /\
  (exists leafData rowData,
     NewLeafData column_name result_same_names = Some leafData /\
     Rows leafData !! 0%nat = Some rowData /\
     rowData !! column_name "a" = Some 2 /\
     rowData !! column_name "a" <> Some 1) /\
  NewLeafData column_name result_long_row = None.
Proof.
  split; [reflexivity |].
  split; [eexists; split; reflexivity |].
  split; [| reflexivity].
  eexists. eexists. split; [reflexivity |]. split; [reflexivity |].
  split; [reflexivity |]. vm_compute. discriminate.
Qed.

(** ** [ExecuteQuery] *)

Import db_client.

Section ExecuteQueryProperties.
Context {context any Result ResultStreamer error C : Type}.
Context `{client_interface : !@DbClient context any Result error C}.
Variable NewResultStreamer : option ResultStreamer.

(** C5. Given that [NewResultStreamer] returns a non-nil streamer,
    [ExecuteQuery] returns a non-nil streamer if and only if the call of
    the client's [Execute] succeeds; when [Execute] returns an error,
    [ExecuteQuery] returns the nil streamer with exactly that error and
    starts no goroutine; when it succeeds, [ExecuteQuery] returns the new
    streamer without error and starts one goroutine, which streams the
    result into the streamer and closes it. *)
Theorem ExecuteQuery_streamer (ctx : context) (client : C)
        (queryString : string) (args : list any) :
  NewResultStreamer <> None ->
  let executed := Execute client ctx queryString args in
  let returned := ExecuteQuery NewResultStreamer ctx client queryString args in
  (fst (fst returned) <> None <-> snd executed = None) /\
  (forall e,
     snd executed = Some e ->
     returned = ((None, Some e), [])) /\
  (snd executed = None ->
   returned =
     ((NewResultStreamer, None),
      [[StreamResult NewResultStreamer (fst executed);
        Close NewResultStreamer]])).
Proof.
  intros Hnew executed returned. subst executed returned.
  unfold ExecuteQuery.
  destruct (Execute client ctx queryString args) as [result [e|]]; simpl.
  - split; [split; [congruence | discriminate] |].
    split; [intros e' [= <-]; reflexivity | discriminate].
  - split; [split; [reflexivity | intros _; exact Hnew] |].
    split; [discriminate | reflexivity].
Qed.
End ExecuteQueryProperties.

Lemma ExecuteQuery_streamer_witness :
  ExecuteQuery (Some 1%nat) tt true "select 1" []
    = ((Some 1%nat, None),
       [[StreamResult (Some 1%nat) 7%nat; Close (Some 1%nat)]]) /\
  ExecuteQuery (Some 1%nat) tt false "select 1" []
    = ((None, Some "connection refused"%string), []).
Proof.
  assert (Hnew : Some 1%nat <> None) by discriminate.
  split.
  - destruct (ExecuteQuery_streamer (Some 1%nat) tt true "select 1" [] Hnew)
      as (_ & _ & Hok).
    apply Hok. reflexivity.
  - destruct (ExecuteQuery_streamer (Some 1%nat) tt false "select 1" [] Hnew)
      as (_ & Herr & _).
    apply Herr. reflexivity.
Defined.

(** ** The check types of the dashboard *)

Import check_common.


Lemma has_type_CheckDisplayGroupType (s : string) :
  has_type s CheckDisplayGroupType = true.
Proof.
  unfold CheckDisplayGroupType. simpl.
  repeat match goal with
         | |- context [(?a =? ?b)%string] => destruct (a =? b)%string; simpl
         end; reflexivity.
Qed.

(** C6 (amended). The type of the grouping kinds names nine string
    literals: the seven kinds of the specification (benchmark, control,
    control_tag, dimension, severity, status, result) and, besides them,
    reason and resource; and its last alternative is [string], so that
    every string is a value of the type. *)
Theorem CheckDisplayGroupType_kinds :
  literals CheckDisplayGroupType =
    ["benchmark"; "control"; "control_tag"; "result"; "dimension";
     "reason"; "resource"; "severity"; "status"]%string /\
  (forall s, In s spec_grouping_kinds -> In s (literals CheckDisplayGroupType)) /\
  (forall s, In s (literals CheckDisplayGroupType) ->
             In s spec_grouping_kinds \/ s = "reason"%string \/ s = "resource"%string) /\
  (forall s, has_type s CheckDisplayGroupType = true).
Proof.
  split; [reflexivity |].
  split; [| split; [| exact has_type_CheckDisplayGroupType]].
  - simpl. intuition (subst; auto 10).
  - simpl. intuition (subst; auto 10).
Qed.

(** C6, as stated, fails: [reason] is a grouping kind the type names and
    is none of the seven; and a string the type does not name, such as
    [owner], is a value of the type all the same. *)
Lemma CheckDisplayGroupType_not_only_seven :
  has_type "reason" CheckDisplayGroupType = true /\
  In "reason"%string (literals CheckDisplayGroupType) /\
  ~ In "reason"%string spec_grouping_kinds /\
  has_type "owner" CheckDisplayGroupType = true /\
  ~ In "owner"%string spec_grouping_kinds.
Proof.
  split; [reflexivity |]. split; [simpl; auto 10 |].
  split; [simpl; intuition discriminate |].
  split; [reflexivity |]. simpl; intuition discriminate.
Qed.

(** C10. [findDimension] returns [undefined] when the list of dimensions
    is absent, when the key is absent and when the key is the empty
    string; otherwise it returns the first dimension, in the order of the
    list, whose key is equal to the given key, and [undefined] when the
    list has no dimension of that key. *)
Theorem findDimension_first_match :
  (forall k, findDimension None k = None) /\
  (forall dimensions, findDimension dimensions None = None) /\
  (forall dimensions, findDimension dimensions (Some ""%string) = None) /\
  (forall ds k d,
     k <> ""%string ->
     (findDimension (Some ds) (Some k) = Some d <->
      exists before after,
        ds = before ++ d :: after /\ key d = k /\
        forall x, In x before -> key x <> k)) /\
  (forall ds k,
     k <> ""%string ->
     (findDimension (Some ds) (Some k) = None <->
      forall x, In x ds -> key x <> k)).
Proof.
  split; [reflexivity |].
  split; [intros [ds|]; reflexivity |].
  split; [intros [ds|]; reflexivity |].
  assert (Hfind : forall ds k,
             k <> ""%string ->
             findDimension (Some ds) (Some k)
               = List.find (fun d => (key d =? k)%string) ds).
  { intros ds k Hk. simpl. destruct (String.eqb_spec k ""); [contradiction |].
    reflexivity. }
  split.
  - intros ds k d Hk. rewrite (Hfind ds k Hk). clear Hfind Hk.
    induction ds as [|x ds IH]; simpl.
    + split; [discriminate |].
      intros (before & after & Heq & _). destruct before; discriminate.
    + destruct (String.eqb_spec (key x) k) as [Hx | Hx].
      * split.
        -- intros [= <-]. exists [], ds. split; [reflexivity |].
           split; [exact Hx |]. intros y [].
        -- intros (before & after & Heq & Hd & Hbefore).
           destruct before as [|y before]; simpl in Heq.
           ++ injection Heq as -> _. reflexivity.
           ++ injection Heq as -> _. exfalso.
              apply (Hbefore y); [left; reflexivity | exact Hx].
      * rewrite IH. split.
        -- intros (before & after & -> & Hd & Hbefore).
           exists (x :: before), after. split; [reflexivity |].
           split; [exact Hd |].
           intros y [<- | Hy]; [exact Hx | apply Hbefore, Hy].
        -- intros (before & after & Heq & Hd & Hbefore).
           destruct before as [|y before]; simpl in Heq.
           ++ injection Heq as -> _. contradiction.
           ++ injection Heq as -> ->. exists before, after.
              split; [reflexivity |]. split; [exact Hd |].
              intros z Hz. apply Hbefore. right. exact Hz.
  - intros ds k Hk. rewrite (Hfind ds k Hk). clear Hfind Hk.
    induction ds as [|x ds IH]; simpl.
    + split; [intros _ y [] | reflexivity].
    + destruct (String.eqb_spec (key x) k) as [Hx | Hx].
      * split; [discriminate |]. intros H. exfalso.
        apply (H x); [left; reflexivity | exact Hx].
      * rewrite IH. split.
        -- intros H y [<- | Hy]; [exact Hx | apply H, Hy].
        -- intros H y Hy. apply H. right. exact Hy.
Qed.

Lemma findDimension_first_match_witness :
  findDimension
    (Some [ {| key := "region"; value := "eu" |};
            {| key := "zone"; value := "a" |};
            {| key := "zone"; value := "b" |} ])
    (Some "zone"%string)
  = Some {| key := "zone"; value := "a" |}.
Proof.
  destruct findDimension_first_match as (_ & _ & _ & Hfirst & _).
  apply Hfirst; [discriminate |].
  exists [ {| key := "region"; value := "eu" |} ],
         [ {| key := "zone"; value := "b" |} ].
  split; [reflexivity |]. split; [reflexivity |].
  intros x [<- | []]. discriminate.
Defined.

(** * Further properties *)

(** ** More about the validation of the arguments *)

Section MoreValidationProperties.
Variable ValidateSnapshotArgs : Viper -> option error.
Variable codes : RuntimeExitCodes.

(** What a successful validation says about the configuration. *)
Lemma validateCheckArgs_None_inv (v : Viper) :
  validateCheckArgs ValidateSnapshotArgs v = None ->
  ValidateSnapshotArgs v = None /\
  IsSet_SearchPath v && IsSet_SearchPathPrefix v = false /\
  (String.length (GetString_Separator v) <= 1)%nat /\
  GetBool_Share v && GetBool_Snapshot v = false /\
  IsSet_Where v && IsSet_Tag v = false.
Proof.
  unfold validateCheckArgs.
  destruct (ValidateSnapshotArgs v); [discriminate |].
  destruct (IsSet_SearchPath v && IsSet_SearchPathPrefix v);
    [discriminate |].
  destruct (Nat.ltb_spec 1 (String.length (GetString_Separator v)));
    [discriminate |].
  destruct (GetBool_Share v && GetBool_Snapshot v); [discriminate |].
  destruct (IsSet_Where v && IsSet_Tag v); [discriminate |].
  intros _. repeat split; try reflexivity. assumption.
Qed.

(** X1. The validation accepts a configuration exactly when all five
    checks pass. *)
Theorem validateCheckArgs_accepts_iff (v : Viper) :
  validateCheckArgs ValidateSnapshotArgs v = None <->
  ValidateSnapshotArgs v = None /\
  IsSet_SearchPath v && IsSet_SearchPathPrefix v = false /\
  (String.length (GetString_Separator v) <= 1)%nat /\
  GetBool_Share v && GetBool_Snapshot v = false /\
  IsSet_Where v && IsSet_Tag v = false.
Proof.
  split; [apply validateCheckArgs_None_inv |].
  intros (Hsnap & Hpath & Hlen & Hshare & Hwhere).
  unfold validateCheckArgs. rewrite Hsnap, Hpath, Hshare, Hwhere.
  apply Nat.ltb_ge in Hlen. rewrite Hlen. reflexivity.
Qed.

(** X2. The error of the validation is the error of the first check that
    fails, in the order: snapshot arguments, search path, separator,
    share/snapshot, where/tag. *)
Theorem validateCheckArgs_first_error (v : Viper) :
  (forall e, ValidateSnapshotArgs v = Some e ->
             validateCheckArgs ValidateSnapshotArgs v = Some e) /\
  (ValidateSnapshotArgs v = None ->
   (IsSet_SearchPath v && IsSet_SearchPathPrefix v = true ->
    validateCheckArgs ValidateSnapshotArgs v = Some ErrSearchPath) /\
   (IsSet_SearchPath v && IsSet_SearchPathPrefix v = false ->
    ((1 < String.length (GetString_Separator v))%nat ->
     validateCheckArgs ValidateSnapshotArgs v
       = Some (ErrAtMostOneCharacter ArgSeparator)) /\
    ((String.length (GetString_Separator v) <= 1)%nat ->
     (GetBool_Share v && GetBool_Snapshot v = true ->
      validateCheckArgs ValidateSnapshotArgs v
        = Some (ErrOnlyOneOf ArgShare ArgSnapshot)) /\
     (GetBool_Share v && GetBool_Snapshot v = false ->
      IsSet_Where v && IsSet_Tag v = true ->
      validateCheckArgs ValidateSnapshotArgs v
        = Some (ErrOnlyOneOf ArgWhere ArgTag))))).
Proof.
  unfold validateCheckArgs. split.
  - intros e ->. reflexivity.
  - intros ->. split; [intros ->; reflexivity |].
    intros ->. split.
    + intros Hlen. apply Nat.ltb_lt in Hlen. rewrite Hlen. reflexivity.
    + intros Hlen. apply Nat.ltb_ge in Hlen. rewrite Hlen.
      split; [intros ->; reflexivity |].
      intros -> ->. reflexivity.
Qed.

(** X3. [--search-path] and [--search-path-prefix] exclude each other:
    when both are set the validation fails, with the search-path error
    unless the snapshot arguments are at fault, and the run ends there
    with the exit code of wrong inputs, the error shown and nothing
    else done. *)
Theorem search_path_check (w : World) :
  IsSet_SearchPath (viper w) = true ->
  IsSet_SearchPathPrefix (viper w) = true ->
  exists err,
    validateCheckArgs ValidateSnapshotArgs (viper w) = Some err /\
    (ValidateSnapshotArgs (viper w) = None -> err = ErrSearchPath) /\
    exitCode (run ValidateSnapshotArgs codes w)
      = ExitCodeInsufficientOrWrongInputs codes /\
    trace (run ValidateSnapshotArgs codes w) = [ShowError err].
Proof.
  intros Hpath Hprefix.
  assert (Hex : exists err,
             validateCheckArgs ValidateSnapshotArgs (viper w) = Some err /\
             (ValidateSnapshotArgs (viper w) = None -> err = ErrSearchPath)).
  { unfold validateCheckArgs. rewrite Hpath, Hprefix.
    destruct (ValidateSnapshotArgs (viper w)) as [e|].
    - exists e. split; [reflexivity | discriminate].
    - exists ErrSearchPath. split; reflexivity. }
  destruct Hex as (err & Herr & Hwhich). exists err.
  split; [exact Herr |]. split; [exact Hwhich |].
  rewrite (run_rejected _ _ w err Herr). split; reflexivity.
Qed.

End MoreValidationProperties.

Lemma search_path_check_witness :
  exists err,
    validateCheckArgs snapshot_args_ok
      {| IsSet_SearchPath := true; IsSet_SearchPathPrefix := true;
         GetString_Separator := ","; GetBool_Share := false;
         GetBool_Snapshot := false; IsSet_Where := false;
         IsSet_Tag := false; GetStringSlice_Export := [];
         GetBool_Progress := true |} = Some err /\
    err = ErrSearchPath.
Proof.
  pose (v := {| IsSet_SearchPath := true; IsSet_SearchPathPrefix := true;
                GetString_Separator := ","; GetBool_Share := false;
                GetBool_Snapshot := false; IsSet_Where := false;
                IsSet_Tag := false; GetStringSlice_Export := [];
                GetBool_Progress := true |}).
  destruct (search_path_check snapshot_args_ok sample_codes
              (world v (Returns (tree_with 0 0, None)) (Returns None)
                     (Returns ([], None))) eq_refl eq_refl)
    as (err & Herr & Hwhich & _).
  exists err. split; [exact Herr | apply Hwhich; reflexivity].
Defined.

(** ** More about the run of the command *)

Section MoreRunProperties.
Variable ValidateSnapshotArgs : Viper -> option error.
Variable codes : RuntimeExitCodes.

#[local] Arguments getExitCode : simpl never.
#[local] Arguments incr_int : simpl never.

(** X4. The diagnostic mode: the configuration is displayed exactly when
    the arguments are valid and the environment asks for it, and the run
    then does nothing else, whatever the collaborators would answer, and
    leaves the exit code at 0. *)
Theorem diagnostic_mode (w : World) :
  (In DisplayConfig (trace (run ValidateSnapshotArgs codes w)) <->
   validateCheckArgs ValidateSnapshotArgs (viper w) = None /\
   envConfigDump w = true) /\
  (In DisplayConfig (trace (run ValidateSnapshotArgs codes w)) ->
   run ValidateSnapshotArgs codes w =
     {| exitCode := 0; totalAlarms := 0; totalErrors := 0;
        trace := [DisplayConfig] |}).
Proof.
  split; [split |].
  - walk_run ltac:(first [ cbn; intuition discriminate
                         | intros _; split; first [assumption | reflexivity] ]).
  - intros [Hv0 Hdump]. walk_run ltac:(in_list).
  - walk_run ltac:(first [ cbn; intuition discriminate
                         | intros _; reflexivity ]).
Qed.

(** X5. The initialisation is reached exactly when the arguments are
    valid and the diagnostic mode is off.  When it fails, the run ends
    with the exit code of a failed initialisation; when it panics, with
    the panic exit code; both times the error is shown, nothing is
    cleaned up and no tree is built. *)
Theorem initialisation_failure (w : World) :
  (In NewInitData (trace (run ValidateSnapshotArgs codes w)) <->
   validateCheckArgs ValidateSnapshotArgs (viper w) = None /\
   envConfigDump w = false) /\
  (validateCheckArgs ValidateSnapshotArgs (viper w) = None ->
   envConfigDump w = false ->
   (forall e,
      initData_Result_Error w = Returns (Some e) ->
      run ValidateSnapshotArgs codes w =
        {| exitCode := ExitCodeInitializationFailed codes;
           totalAlarms := 0; totalErrors := 0;
           trace := [NewInitData; ShowError e] |}) /\
   (forall r,
      initData_Result_Error w = Panics r ->
      run ValidateSnapshotArgs codes w =
        {| exitCode := ExitCodeUnknownErrorPanic codes;
           totalAlarms := 0; totalErrors := 0;
           trace := [NewInitData; ShowError r] |})).
Proof.
  split; [split |].
  - walk_run ltac:(first [ cbn; intuition discriminate
                         | intros _; split; first [assumption | reflexivity] ]).
  - intros [Hv0 Hdump]. walk_run ltac:(in_list).
  - intros Hv0 Hdump. split.
    + intros e Hinit. walk_run ltac:(reflexivity).
    + intros r Hinit. walk_run ltac:(reflexivity).
Qed.

(** X6. [Cleanup] runs exactly once in every run whose initialisation
    succeeded, also when a later step fails or panics, and never
    otherwise.  It is the last thing the run does, but for the report of
    a panic. *)
Theorem cleanup_exactly_once (w : World) :
  let s := run ValidateSnapshotArgs codes w in
  (initialised ValidateSnapshotArgs w ->
   length (List.filter is_Cleanup (trace s)) = 1%nat /\
   (last (trace s) = Some Cleanup \/
    exists r, last (trace s) = Some (ShowError r) /\
              last (removelast (trace s)) = Some Cleanup)) /\
  (~ initialised ValidateSnapshotArgs w ->
   length (List.filter is_Cleanup (trace s)) = 0%nat).
Proof.
  cbv zeta. split.
  - intros (Hv0 & Hdump & Hinit).
    walk_run ltac:(split; [reflexivity
                          | first [left; reflexivity
                                  | right; eexists; split; reflexivity]]).
  - unfold initialised.
    walk_run ltac:(first [ intros _; reflexivity
                         | intros H; exfalso; apply H;
                           repeat split; first [assumption | reflexivity] ]).
Qed.

(** X7. A failure of [getExecutionTree] is a panic: when the context is
    canceled before the tree is built, when the tree cannot be built, and
    when the context is canceled while it is built, the run ends with the
    panic exit code, after the clean-up, and nothing is executed.  The
    error of the tree builder is shown wrapped in a message. *)
Theorem tree_build_failure (w : World) :
  initialised ValidateSnapshotArgs w ->
  let s := run ValidateSnapshotArgs codes w in
  (ctxCanceled w InGetExecutionTree = true ->
   s = {| exitCode := ExitCodeUnknownErrorPanic codes;
          totalAlarms := 0; totalErrors := 0;
          trace := [NewInitData; DisplayMessages; Cleanup;
                    ShowError ErrContext] |}) /\
  (ctxCanceled w InGetExecutionTree = false ->
   (forall t0 e,
      NewExecutionTree_outcome w = Returns (t0, Some e) ->
      s = {| exitCode := ExitCodeUnknownErrorPanic codes;
             totalAlarms := 0; totalErrors := 0;
             trace := [NewInitData; DisplayMessages; NewExecutionTree;
                       Cleanup;
                       ShowError
                         (ErrWrapWithMessage e
                            "could not create merged execution tree")] |}) /\
   (forall t0,
      NewExecutionTree_outcome w = Returns (t0, None) ->
      ctxCanceled w AfterNewExecutionTree = true ->
      s = {| exitCode := ExitCodeUnknownErrorPanic codes;
             totalAlarms := 0; totalErrors := 0;
             trace := [NewInitData; DisplayMessages; NewExecutionTree;
                       Cleanup; ShowError ErrContext] |})).
Proof.
  intros (Hv0 & Hdump & Hinit). cbv zeta. split; [| split].
  - intros Hc. walk_run ltac:(reflexivity).
  - intros t0 e Hnew. walk_run ltac:(reflexivity).
  - intros t0 Hnew Hc. walk_run ltac:(reflexivity).
Qed.

(** X8. The run reaches the execution of the tree exactly when the tree
    was built, and its trace then starts with the initialisation, the
    messages, the tree builder and the execution, in this order. *)
Theorem reaches_execution_iff (w : World) :
  (In TreeExecute (trace (run ValidateSnapshotArgs codes w)) <->
   exists t0, tree_built ValidateSnapshotArgs w t0) /\
  (In TreeExecute (trace (run ValidateSnapshotArgs codes w)) ->
   firstn 4 (trace (run ValidateSnapshotArgs codes w))
     = [NewInitData; DisplayMessages; NewExecutionTree; TreeExecute]).
Proof.
  split; [split |].
  - walk_run ltac:(first [ cbn; intuition discriminate
                         | intros _; eexists; unfold tree_built, initialised;
                           cbn; repeat split;
                           first [assumption | reflexivity] ]).
  - intros (t0 & (Hv0 & Hdump & Hinit) & Hc0 & Hnew & Hc1).
    walk_run ltac:(in_list).
  - walk_run ltac:(first [ cbn; intuition discriminate
                         | intros _; reflexivity ]).
Qed.

(** X9. When the execution or the display of its results fails, the root
    summary is not read: the totals are 0 alarms and 1 error and the exit
    code is 2; the error is shown, no snapshot is published, nothing is
    exported, and the run ends with the clean-up. *)
Theorem failed_execution_ends_the_run (w : World) (t0 : ExecutionTree)
        (e : error) :
  tree_built ValidateSnapshotArgs w t0 ->
  executeTree_fails w e ->
  let s := run ValidateSnapshotArgs codes w in
  exitCode s = ExitCodeControlsError /\
  totalAlarms s = 0 /\ totalErrors s = 1 /\
  In (ShowError e) (trace s) /\
  (forall b, ~ In (PublishSnapshot b) (trace s)) /\
  (forall a, ~ In (DoExport a) (trace s)) /\
  last (trace s) = Some Cleanup.
Proof.
  intros ((Hv0 & Hdump & Hinit) & Hc0 & Hnew & Hc1) Hfail. cbv zeta.
  destruct Hfail as [[t He] | [t [He [Hf | [Hf Hc]]]]];
    walk_run ltac:(settle).
Qed.

(** X10. When the publication of the snapshot fails, or finds the context
    canceled, the error is shown and counted as one more error on top of
    the errors of the root summary, and nothing is exported; on a
    canceled context nothing is published either. *)
Theorem failed_publication_skips_export (w : World) (t0 t : ExecutionTree)
        (e : error) :
  tree_built ValidateSnapshotArgs w t0 ->
  executeTree_succeeds w t ->
  publishSnapshot_fails w e ->
  let s := run ValidateSnapshotArgs codes w in
  exitCode s = getExitCode (root_alarms t) (incr_int (root_errors t)) /\
  totalAlarms s = root_alarms t /\
  totalErrors s = incr_int (root_errors t) /\
  In (ShowError e) (trace s) /\
  (forall a, ~ In (DoExport a) (trace s)) /\
  (ctxCanceled w InPublishSnapshot = true ->
   forall b, ~ In (PublishSnapshot b) (trace s)).
Proof.
  intros ((Hv0 & Hdump & Hinit) & Hc0 & Hnew & Hc1) (He & Hf & Hcp) Hfail.
  cbv zeta.
  destruct Hfail as [[Hc2 ->] | (Hc2 & Hsh & Hpub)];
    walk_run ltac:(settle).
Qed.

End MoreRunProperties.

Section PublicationAndExport.
Variable ValidateSnapshotArgs : Viper -> option error.
Variable codes : RuntimeExitCodes.

#[local] Arguments getExitCode : simpl never.
#[local] Arguments incr_int : simpl never.

(** On a path where both [--share] and [--snapshot] are set the
    validation cannot have succeeded. *)
Ltac both_set :=
  exfalso;
  match goal with
  | Hv : validateCheckArgs _ ?v = None,
    H1 : GetBool_Share ?v = true, H2 : GetBool_Snapshot ?v = true |- _ =>
      apply validateCheckArgs_None_inv in Hv;
      destruct Hv as (_ & _ & _ & Hv & _);
      rewrite H1, H2 in Hv; discriminate Hv
  end.

(** X11. A snapshot is published only when exactly one of [--share] and
    [--snapshot] is set, with the visibility that [--share] says, only on
    a context that is not canceled, and only after the execution and the
    display of its results have succeeded. *)
Theorem snapshot_published_only_when_asked (w : World) (b : bool) :
  In (PublishSnapshot b) (trace (run ValidateSnapshotArgs codes w)) ->
  b = GetBool_Share (viper w) /\
  xorb (GetBool_Share (viper w)) (GetBool_Snapshot (viper w)) = true /\
  ctxCanceled w InPublishSnapshot = false /\
  exists t, executeTree_succeeds w t.
Proof.
  walk_run ltac:(first
    [ solve [both_set]
    | solve [cbn; intuition discriminate]
    | let H := fresh "H" in
      intros H; event_cases H; simplify_eq;
      cbn;
      repeat match goal with
             | Hs : GetBool_Share _ = _ |- _ => rewrite Hs
             | Hs : GetBool_Snapshot _ = _ |- _ => rewrite Hs
             end;
      repeat split; try assumption; try reflexivity;
      eexists; unfold executeTree_succeeds; cbn; repeat split ]).
Qed.

(** X12. The export is called with the [--export] list of the
    configuration, also when the list is empty, and only on a context
    that is not canceled, after the execution and the display have
    succeeded and no publication has failed.  Its messages are printed
    only when there are some, the export has succeeded, and [--progress]
    is on; no failure is shown in such a run. *)
Theorem export_only_after_success (w : World) :
  (forall a,
     In (DoExport a) (trace (run ValidateSnapshotArgs codes w)) ->
     a = GetStringSlice_Export (viper w) /\
     ctxCanceled w InExportExecutionTree = false /\
     (exists t, executeTree_succeeds w t) /\
     (forall e, ~ publishSnapshot_fails w e)) /\
  (forall m,
     In (PrintExportMsg m) (trace (run ValidateSnapshotArgs codes w)) ->
     m <> [] /\
     GetBool_Progress (viper w) = true /\
     DoExport_outcome w = Returns (m, None) /\
     ~ failure_shown (run ValidateSnapshotArgs codes w)).
Proof.
  split.
  - intros a.
    walk_run ltac:(first
      [ solve [both_set]
      | solve [cbn; intuition discriminate]
      | let H := fresh "H" in
        intros H; event_cases H; simplify_eq;
        split; [reflexivity |]; split; [first [assumption | reflexivity] |];
        split; [eexists; unfold executeTree_succeeds; cbn; repeat split |];
        let e := fresh "e" in
        intros e; unfold publishSnapshot_fails; cbn;
        repeat match goal with
               | Hs : GetBool_Share _ = _ |- _ => rewrite Hs
               | Hs : GetBool_Snapshot _ = _ |- _ => rewrite Hs
               end;
        cbn; intuition congruence ]).
  - intros m.
    walk_run ltac:(first
      [ solve [both_set]
      | solve [cbn; intuition discriminate]
      | let H := fresh "H" in
        intros H; event_cases H; simplify_eq;
        split; [discriminate |]; split; [first [assumption | reflexivity] |];
        split; [reflexivity | not_shown] ]).
Qed.

(** X13. The command never panics itself: a panic of its body is
    recovered.  The value of the panic is then shown as the last event
    and the exit code is the panic exit code, also when the deferred
    closure had already set the exit code from the totals; without a
    panic the recovery changes nothing. *)
Theorem panic_is_recovered (w : World) :
  fst (runCheckCmd ValidateSnapshotArgs codes w initial_state) = Returns tt /\
  (forall r,
     fst (runCheckCmd_body ValidateSnapshotArgs codes w initial_state)
       = Panics r ->
     exitCode (run ValidateSnapshotArgs codes w)
       = ExitCodeUnknownErrorPanic codes /\
     trace (run ValidateSnapshotArgs codes w)
       = trace (snd (runCheckCmd_body ValidateSnapshotArgs codes w
                       initial_state)) ++ [ShowError r]) /\
  (~ panics ValidateSnapshotArgs codes w ->
   run ValidateSnapshotArgs codes w
     = snd (runCheckCmd_body ValidateSnapshotArgs codes w initial_state)) /\
  (forall t0 r,
     tree_built ValidateSnapshotArgs w t0 ->
     Execute_outcome w = Panics r ->
     run ValidateSnapshotArgs codes w =
       {| exitCode := ExitCodeUnknownErrorPanic codes;
          totalAlarms := 0; totalErrors := 0;
          trace := [NewInitData; DisplayMessages; NewExecutionTree;
                    TreeExecute; Cleanup; ShowError r] |}).
Proof.
  split; [| split; [| split]].
  - unfold runCheckCmd, defer_recover.
    destruct (runCheckCmd_body ValidateSnapshotArgs codes w initial_state)
      as [[[] | r] s']; reflexivity.
  - intros r Hr. unfold run, runCheckCmd, defer_recover.
    destruct (runCheckCmd_body ValidateSnapshotArgs codes w initial_state)
      as [[a | r'] s']; simpl in Hr; [discriminate |].
    injection Hr as ->. split; reflexivity.
  - intros Hnot. unfold run, runCheckCmd, defer_recover.
    unfold panics in Hnot.
    destruct (runCheckCmd_body ValidateSnapshotArgs codes w initial_state)
      as [[a | r'] s']; [reflexivity |].
    exfalso. apply Hnot. exists r'. reflexivity.
  - intros t0 r ((Hv0 & Hdump & Hinit) & Hc0 & Hnew & Hc1) Hexe.
    walk_run ltac:(reflexivity).
Qed.

End PublicationAndExport.

(** X14. The resolver answers 0, 1 or 2 for all counts, negative ones
    counting as none; it answers 0 exactly when neither count is
    positive; and it is monotone: more alarms or more errors never give a
    smaller exit code. *)
Theorem getExitCode_monotone (alarms errors alarms' errors' : Z) :
  (0 <= getExitCode alarms errors <= 2) /\
  (getExitCode alarms errors = 0 <-> alarms <= 0 /\ errors <= 0) /\
  (alarms <= alarms' -> errors <= errors' ->
   getExitCode alarms errors <= getExitCode alarms' errors').
Proof.
  destruct (getExitCode_inv alarms errors)
    as [(-> & He & Ha) | [(-> & He & Ha) | (-> & He)]];
    (split; [lia |]); (split; [split; [intros H; lia | intros [? ?]; lia] |]);
    intros Hle1 Hle2;
    destruct (getExitCode_inv alarms' errors')
      as [(-> & He' & Ha') | [(-> & He' & Ha') | (-> & He')]]; lia.
Qed.

Lemma getExitCode_monotone_witness :
  getExitCode 0 0 <= getExitCode 4 0 /\ getExitCode 4 0 <= getExitCode 4 1.
Proof.
  split.
  - apply (getExitCode_monotone 0 0 4 0); lia.
  - apply (getExitCode_monotone 4 0 4 1); lia.
Defined.

Section SuccessfulRun.
Variable ValidateSnapshotArgs : Viper -> option error.
Variable codes : RuntimeExitCodes.

#[local] Arguments getExitCode : simpl never.
#[local] Arguments incr_int : simpl never.


End SuccessfulRun.


(** *** Runs that show these properties at work *)

Lemma tree_build_failure_witness :
  let w := {| viper := config "," false false false false;
              envConfigDump := false;
              ctxCanceled := fun _ => false;
              initData_Result_Error := Returns None;
              NewExecutionTree_outcome :=
                Returns (tree_with 0 0, Some (ErrOther "no such benchmark"));
              exportName := "check.mod";
              Execute_outcome := Returns (tree_with 0 0, None);
              Format_outcome := Returns None;
              Copy_outcome := Returns None;
              PublishSnapshot_outcome := Returns None;
              DoExport_outcome := Returns ([], None) |} in
  initialised snapshot_args_ok w /\
  exitCode (run snapshot_args_ok sample_codes w)
    = ExitCodeUnknownErrorPanic sample_codes /\
  ~ In TreeExecute (trace (run snapshot_args_ok sample_codes w)).
Proof.
  cbv zeta.
  assert (Hinit : initialised snapshot_args_ok
            {| viper := config "," false false false false;
               envConfigDump := false;
               ctxCanceled := fun _ => false;
               initData_Result_Error := Returns None;
               NewExecutionTree_outcome :=
                 Returns (tree_with 0 0, Some (ErrOther "no such benchmark"));
               exportName := "check.mod";
               Execute_outcome := Returns (tree_with 0 0, None);
               Format_outcome := Returns None;
               Copy_outcome := Returns None;
               PublishSnapshot_outcome := Returns None;
               DoExport_outcome := Returns ([], None) |})
    by (repeat split).
  split; [exact Hinit |].
  destruct (tree_build_failure snapshot_args_ok sample_codes _ Hinit)
    as (_ & Hbuild).
  destruct (Hbuild eq_refl) as (Herr & _).
  rewrite (Herr (tree_with 0 0) (ErrOther "no such benchmark") eq_refl).
  split; [reflexivity | simpl; intuition discriminate].
Defined.

Lemma failed_execution_ends_the_run_witness :
  let w := world (config "," true false false false)
                 (Returns (tree_with 3 2, Some ErrContext))
                 (Returns None) (Returns ([], None)) in
  exitCode (run snapshot_args_ok sample_codes w) = 2 /\
  forall b, ~ In (PublishSnapshot b) (trace (run snapshot_args_ok sample_codes w)).
Proof.
  cbv zeta.
  assert (Hbuilt : tree_built snapshot_args_ok
            (world (config "," true false false false)
                   (Returns (tree_with 3 2, Some ErrContext))
                   (Returns None) (Returns ([], None)))
            (tree_with 0 0))
    by (repeat split).
  assert (Hfail : executeTree_fails
            (world (config "," true false false false)
                   (Returns (tree_with 3 2, Some ErrContext))
                   (Returns None) (Returns ([], None)))
            ErrContext)
    by (left; exists (tree_with 3 2); reflexivity).
  destruct (failed_execution_ends_the_run snapshot_args_ok sample_codes
              _ _ _ Hbuilt Hfail) as (Hexit & _ & _ & _ & Hpub & _).
  split; [exact Hexit | exact Hpub].
Defined.

Lemma failed_publication_skips_export_witness :
  let w := world (config "," true false false false)
                 (Returns (tree_with 3 0, None))
                 (Returns (Some (ErrOther "publish failed")))
                 (Returns ([], None)) in
  exitCode (run snapshot_args_ok sample_codes w) = 2 /\
  forall a, ~ In (DoExport a) (trace (run snapshot_args_ok sample_codes w)).
Proof.
  cbv zeta.
  assert (Hbuilt : tree_built snapshot_args_ok
            (world (config "," true false false false)
                   (Returns (tree_with 3 0, None))
                   (Returns (Some (ErrOther "publish failed")))
                   (Returns ([], None)))
            (tree_with 0 0))
    by (repeat split).
  assert (Hexe : executeTree_succeeds
            (world (config "," true false false false)
                   (Returns (tree_with 3 0, None))
                   (Returns (Some (ErrOther "publish failed")))
                   (Returns ([], None)))
            (tree_with 3 0))
    by (repeat split).
  assert (Hfail : publishSnapshot_fails
            (world (config "," true false false false)
                   (Returns (tree_with 3 0, None))
                   (Returns (Some (ErrOther "publish failed")))
                   (Returns ([], None)))
            (ErrOther "publish failed"))
    by (right; repeat split).
  destruct (failed_publication_skips_export snapshot_args_ok sample_codes
              _ _ _ _ Hbuilt Hexe Hfail) as (Hexit & _ & _ & _ & Hexp & _).
  split; [rewrite Hexit; reflexivity | exact Hexp].
Defined.

Lemma snapshot_published_only_when_asked_witness :
  let w := world (config "," false true false false)
                 (Returns (tree_with 0 0, None)) (Returns None)
                 (Returns ([], None)) in
  In (PublishSnapshot false) (trace (run snapshot_args_ok sample_codes w)) /\
  xorb (GetBool_Share (viper w)) (GetBool_Snapshot (viper w)) = true.
Proof.
  cbv zeta.
  assert (Hin : In (PublishSnapshot false)
                   (trace (run snapshot_args_ok sample_codes
                             (world (config "," false true false false)
                                    (Returns (tree_with 0 0, None))
                                    (Returns None) (Returns ([], None))))))
    by (vm_compute; tauto).
  split; [exact Hin |].
  destruct (snapshot_published_only_when_asked snapshot_args_ok sample_codes
              _ _ Hin) as (_ & Hxor & _).
  exact Hxor.
Defined.

(** ** More about [NewLeafData] *)

Local Open Scope nat_scope.

Section MoreLeafDataProperties.
Context {ColumnDef V : Type}.
Variable Name : ColumnDef -> string.

(** The inner loop panics exactly when the row has more cells than there
    are columns left. *)
Lemma fill_rowData_None_iff (cols : list ColumnDef) (data : list V)
      (i : nat) (rowData : gmap string V) :
  i <= length cols ->
  (fill_rowData Name cols i data rowData = None <->
   length cols < i + length data).
Proof.
  intros Hi. split.
  - intros Hnone. destruct (decide (length cols < i + length data)) as [|Hn];
      [assumption |].
    destruct (fill_rowData_fits Name cols data i rowData) as [m Hm]; [lia |].
    congruence.
  - intros Hlt. apply fill_rowData_overflow. lia.
Qed.

(** The outer loop panics exactly when one of the rows is too long. *)
Lemma fill_Rows_None_iff (cols : list ColumnDef)
      (source : list (RowResult V)) :
  forall (rowIdx : nat) (rows : list (gmap string V)),
    fill_Rows Name cols rowIdx source rows = None <->
    exists row, row ∈ source /\ length cols < length (Data row).
Proof.
  induction source as [|row rest IH]; intros rowIdx rows; simpl.
  - split; [discriminate |]. intros (row & Hin & _).
    apply elem_of_nil in Hin. contradiction.
  - destruct (fill_rowData Name cols 0 (Data row) ∅) as [rowData|] eqn:Hrow.
    + rewrite IH. split.
      * intros (row' & Hin & Hlen). exists row'.
        split; [right; exact Hin | exact Hlen].
      * intros (row' & Hin & Hlen).
        apply elem_of_cons in Hin as [-> | Hin].
        -- exfalso.
           assert (Hnone : fill_rowData Name cols 0 (Data row) ∅ = None)
             by (apply fill_rowData_None_iff; simpl; lia).
           congruence.
        -- exists row'. split; assumption.
    + split; [| reflexivity]. intros _. exists row. split; [left |].
      apply fill_rowData_None_iff in Hrow; simpl in *; lia.
Qed.

(** X15. [NewLeafData] panics exactly when some row of the result has more
    cells than the result has columns; rows with fewer cells are
    accepted, and so is a result without rows. *)
Theorem NewLeafData_panics_iff (result : SyncQueryResult ColumnDef V) :
  NewLeafData Name result = None <->
  exists row, row ∈ localqueryresult.Rows result /\
              length (Cols result) < length (Data row).
Proof.
  unfold NewLeafData.
  rewrite <- (fill_Rows_None_iff (Cols result)
                (localqueryresult.Rows result) 0
                (replicate (length (localqueryresult.Rows result)) ∅)).
  destruct (fill_Rows Name (Cols result) 0 (localqueryresult.Rows result)
              (replicate (length (localqueryresult.Rows result)) ∅));
    split; first [discriminate | reflexivity].
Qed.

(** The keys of the map after the inner loop: those it had, and the names
    of the columns the loop went over. *)
Lemma fill_rowData_dom (cols : list ColumnDef) (data : list V) :
  forall (i : nat) (rowData rowData' : gmap string V),
    fill_rowData Name cols i data rowData = Some rowData' ->
    dom rowData' =
      dom rowData ∪ list_to_set (Name <$> take (length data) (drop i cols)).
Proof.
  induction data as [|d rest IH]; intros i rowData rowData' Hfill;
    simpl in Hfill.
  - injection Hfill as <-. simpl. rewrite (right_id_L ∅ (∪)). reflexivity.
  - destruct (cols !! i) as [c0|] eqn:Hc0; [| discriminate].
    rewrite (IH _ _ _ Hfill), dom_insert_L.
    rewrite (drop_S cols c0 i Hc0). simpl.
    rewrite (comm_L (∪) {[Name c0]} (dom rowData)).
    rewrite (assoc_L (∪)). reflexivity.
Qed.

(** The value of a key after the inner loop, whatever the names of the
    columns: the cell of the last column of that name the loop went over,
    or the value the map had when there is no such column. *)
Lemma fill_rowData_last_wins (cols : list ColumnDef) (data : list V) :
  forall (i : nat) (rowData rowData' : gmap string V),
    fill_rowData Name cols i data rowData = Some rowData' ->
    forall (k : string) (v : V),
      rowData' !! k = Some v <->
      (exists j c,
          cols !! (i + j) = Some c /\ Name c = k /\ data !! j = Some v /\
          forall j' c', j < j' -> j' < length data ->
                        cols !! (i + j') = Some c' -> Name c' <> k) \/
      (rowData !! k = Some v /\
       forall j c, j < length data -> cols !! (i + j) = Some c ->
                   Name c <> k).
Proof.
  induction data as [|d rest IH]; intros i rowData rowData' Hfill k v;
    simpl in Hfill.
  - injection Hfill as <-. split.
    + intros H. right. split; [exact H |]. simpl. intros; lia.
    + intros [(j & c & _ & _ & Hj & _) | [H _]]; [| exact H].
      rewrite lookup_nil in Hj. discriminate.
  - destruct (cols !! i) as [c0|] eqn:Hc0; [| discriminate].
    rewrite (IH _ _ _ Hfill k v). clear IH Hfill. split.
    + intros [(j & c & Hc & Hname & Hj & Hlater) | [Hm Hnone]].
      * left. exists (S j), c.
        split; [rewrite <- Hc; f_equal; lia |].
        split; [exact Hname |]. split; [exact Hj |].
        intros j' c' Hlt Hlen Hc'. destruct j' as [|j']; [lia |].
        apply (Hlater j' c'); [lia | simpl in Hlen; lia |].
        rewrite <- Hc'. f_equal. lia.
      * destruct (decide (Name c0 = k)) as [Heq | Hne].
        -- left. exists 0, c0. rewrite Nat.add_0_r.
           split; [exact Hc0 |]. split; [exact Heq |].
           rewrite Heq, lookup_insert_eq in Hm. split; [exact Hm |].
           intros j' c' Hlt Hlen Hc'. destruct j' as [|j']; [lia |].
           apply (Hnone j' c'); [simpl in Hlen; lia |].
           rewrite <- Hc'. f_equal. lia.
        -- right. rewrite lookup_insert_ne in Hm by exact Hne.
           split; [exact Hm |].
           intros j c Hlen Hc. destruct j as [|j].
           ++ rewrite Nat.add_0_r, Hc0 in Hc. injection Hc as <-. exact Hne.
           ++ apply (Hnone j c); [simpl in Hlen; lia |].
              rewrite <- Hc. f_equal. lia.
    + intros [(j & c & Hc & Hname & Hj & Hlater) | [Hm Hnone]].
      * destruct j as [|j].
        -- right. rewrite Nat.add_0_r, Hc0 in Hc. injection Hc as <-.
           simpl in Hj. injection Hj as <-.
           rewrite Hname, lookup_insert_eq. split; [reflexivity |].
           intros j c Hlen Hc. apply (Hlater (S j) c); [lia | simpl; lia |].
           rewrite <- Hc. f_equal. lia.
        -- left. exists j, c.
           split; [rewrite <- Hc; f_equal; lia |].
           split; [exact Hname |]. split; [exact Hj |].
           intros j' c' Hlt Hlen Hc'.
           apply (Hlater (S j') c'); [lia | simpl; lia |].
           rewrite <- Hc'. f_equal. lia.
      * right. assert (Hne : Name c0 <> k).
        { apply (Hnone 0 c0); [simpl; lia |].
          rewrite Nat.add_0_r. exact Hc0. }
        rewrite lookup_insert_ne by exact Hne. split; [exact Hm |].
        intros j c Hlen Hc. apply (Hnone (S j) c); [simpl; lia |].
        rewrite <- Hc. f_equal. lia.
Qed.

(** When [NewLeafData] returns, every row fitted the columns. *)
Lemma NewLeafData_Some_fits (result : SyncQueryResult ColumnDef V)
      (leafData : LeafData ColumnDef V) :
  NewLeafData Name result = Some leafData ->
  forall row, row ∈ localqueryresult.Rows result ->
              length (Data row) <= length (Cols result).
Proof.
  intros Hnew row Hin.
  destruct (decide (length (Data row) <= length (Cols result))) as [|Hn];
    [assumption |].
  assert (Hnone : NewLeafData Name result = None).
  { unfold NewLeafData.
    rewrite (proj2 (fill_Rows_None_iff (Cols result)
                      (localqueryresult.Rows result) 0
                      (replicate (length (localqueryresult.Rows result)) ∅)));
      [reflexivity |]. exists row. split; [exact Hin | lia]. }
  congruence.
Qed.

(** A set made from a list has at most as many elements as the list. *)
Lemma size_list_to_set_length (l : list string) :
  size (list_to_set l : gset string) <= length l.
Proof.
  induction l as [|x l IH].
  - rewrite list_to_set_nil, size_empty. reflexivity.
  - rewrite list_to_set_cons. simpl length.
    destruct (decide (x ∈ (list_to_set l : gset string))) as [Hin | Hnin].
    + rewrite (subseteq_union_1_L {[x]} (list_to_set l));
        [lia | apply singleton_subseteq_l; exact Hin].
    + rewrite size_union by (apply disjoint_singleton_l; exact Hnin).
      rewrite size_singleton. lia.
Qed.

(** X16. Whenever [NewLeafData] returns, also with column names that
    repeat: the columns are those of the result, the rows are as many as
    the rows of the result, and the row produced for a source row maps a
    name to the cell of the last column of that name that the source row
    has a cell for; its keys are the names of the columns the source row
    has cells for, so that it has at most as many keys as the row has
    cells. *)
Theorem NewLeafData_last_cell_wins (result : SyncQueryResult ColumnDef V)
        (leafData : LeafData ColumnDef V) :
  NewLeafData Name result = Some leafData ->
  Columns leafData = Cols result /\
  length (Rows leafData) = length (localqueryresult.Rows result) /\
  forall (rowIdx : nat) (row : RowResult V),
    localqueryresult.Rows result !! rowIdx = Some row ->
    exists rowData,
      Rows leafData !! rowIdx = Some rowData /\
      (forall (k : string) (v : V),
         rowData !! k = Some v <->
         exists i c,
           Cols result !! i = Some c /\ Name c = k /\
           Data row !! i = Some v /\
           forall i' c', i < i' -> i' < length (Data row) ->
                         Cols result !! i' = Some c' -> Name c' <> k) /\
      dom rowData
        = list_to_set (Name <$> take (length (Data row)) (Cols result)) /\
      size rowData <= length (Data row).
Proof.
  intros Hnew. pose proof (NewLeafData_Some_fits result leafData Hnew) as Hfit.
  unfold NewLeafData in Hnew.
  destruct (fill_Rows_spec Name (Cols result) (localqueryresult.Rows result)
              Hfit 0 (replicate (length (localqueryresult.Rows result)) ∅))
    as (rows' & Hrows' & Hlen' & _ & Hat).
  { rewrite length_replicate. reflexivity. }
  rewrite Hrows' in Hnew. injection Hnew as <-. simpl.
  split; [reflexivity |].
  split; [rewrite Hlen', length_replicate; reflexivity |].
  intros rowIdx row Hrow.
  destruct (Hat rowIdx row Hrow) as (rowData & Hfill & Hlook).
  exists rowData. split; [exact Hlook |].
  assert (Hdom : dom rowData
            = list_to_set (Name <$> take (length (Data row)) (Cols result))).
  { rewrite (fill_rowData_dom _ _ _ _ _ Hfill), dom_empty_L, drop_0.
    apply (left_id_L ∅ (∪)). }
  split; [| split; [exact Hdom |]].
  - intros k v. rewrite (fill_rowData_last_wins _ _ _ _ _ Hfill k v).
    split.
    + intros [H | [H _]]; [exact H |].
      rewrite lookup_empty in H. discriminate.
    + intros H. left. exact H.
  - rewrite <- size_dom, Hdom.
    etransitivity; [apply size_list_to_set_length |].
    rewrite length_fmap, length_take. lia.
Qed.

End MoreLeafDataProperties.

Local Open Scope Z_scope.

Lemma NewLeafData_last_cell_wins_witness :
  exists leafData rowData,
    NewLeafData column_name result_same_names = Some leafData /\
    Rows leafData !! 0%nat = Some rowData /\
    rowData !! "a" = Some 2 /\
    (size rowData <= 2)%nat.
Proof.
  destruct (NewLeafData column_name result_same_names) as [leafData|] eqn:Hnew;
    [| vm_compute in Hnew; discriminate].
  destruct (NewLeafData_last_cell_wins column_name result_same_names leafData
              Hnew) as (_ & _ & Hrows).
  destruct (Hrows 0%nat {| Data := [1; 2] |} eq_refl)
    as (rowData & Hrow & Hcell & _ & Hsize).
  exists leafData, rowData. split; [reflexivity |]. split; [exact Hrow |].
  split; [| exact Hsize].
  apply Hcell. exists 1%nat, "a"%string.
  split; [reflexivity |]. split; [reflexivity |]. split; [reflexivity |].
  intros i' c' Hlt Hlen. simpl in Hlen. lia.
Defined.


(** ** More about [ExecuteQuery] *)

Section MoreExecuteQueryProperties.
Context {context any Result ResultStreamer error C : Type}.
Context `{client_interface : !@DbClient context any Result error C}.
Variable NewResultStreamer : option ResultStreamer.

(** X17. Whatever [NewResultStreamer] returns: [ExecuteQuery] returns an
    error exactly when [Execute] does, and then that error; it never
    returns a streamer together with an error; and it starts one
    goroutine when it returns no error and none when it returns one.  The
    goroutine streams the result of [Execute] into the streamer that is
    returned and then closes that same streamer. *)
Theorem ExecuteQuery_error_or_goroutine (ctx : context) (client : C)
        (queryString : string) (args : list any) :
  let executed := Execute client ctx queryString args in
  let returned := ExecuteQuery NewResultStreamer ctx client queryString args in
  snd (fst returned) = snd executed /\
  (snd (fst returned) <> None -> fst (fst returned) = None) /\
  (snd (fst returned) <> None -> snd returned = []) /\
  (snd (fst returned) = None ->
   snd returned = [[StreamResult (fst (fst returned)) (fst executed);
                    Close (fst (fst returned))]]).
Proof.
  cbv zeta. unfold ExecuteQuery.
  destruct (Execute client ctx queryString args) as [result [e|]]; simpl.
  - repeat split; try reflexivity. discriminate.
  - repeat split; try reflexivity; intros H; contradiction.
Qed.
End MoreExecuteQueryProperties.

(** ** More about [findDimension] *)

(** X18. [findDimension] over two lists put end to end looks in the first
    list and, only when the key is not found there, in the second: a
    dimension of the first list hides the dimensions of the same key in
    the second. *)
Theorem findDimension_app (ds1 ds2 : list CheckResultDimension)
        (k : option string) :
  findDimension (Some (ds1 ++ ds2)) k =
    match findDimension (Some ds1) k with
    | Some d => Some d
    | None => findDimension (Some ds2) k
    end.
Proof.
  destruct k as [k|]; [| reflexivity]. simpl.
  destruct (String.eqb k ""); [reflexivity |].
  induction ds1 as [|x ds1 IH]; simpl; [reflexivity |].
  destruct (String.eqb (key x) k); [reflexivity | exact IH].
Qed.

(** X19. The dimensions of other keys do not matter: [findDimension]
    gives the same answer on the list that keeps the dimensions of the
    given key only; and what it returns is a dimension of the list, of
    the given key, which is not empty. *)
Theorem findDimension_other_keys (ds : list CheckResultDimension)
        (k : string) :
  findDimension (Some (List.filter (fun d => String.eqb (key d) k) ds))
                (Some k)
    = findDimension (Some ds) (Some k) /\
  (forall d, findDimension (Some ds) (Some k) = Some d ->
             In d ds /\ key d = k /\ k <> ""%string).
Proof.
  simpl. destruct (String.eqb_spec k "") as [-> | Hk].
  - split; [reflexivity | discriminate].
  - split.
    + induction ds as [|x ds IH]; simpl; [reflexivity |].
      destruct (String.eqb (key x) k) eqn:Hx; simpl.
      * rewrite Hx. reflexivity.
      * exact IH.
    + intros d Hd. apply find_some in Hd as [Hin Hkey].
      apply String.eqb_eq in Hkey. auto.
Qed.
